(** * Dataset scanner: reference extraction and licence classification

    A shallow embedding of [scan.py] (class [DatasetScanner]) and the
    properties of its extraction and classification pipeline.

    Texts are Python [str] values restricted to ASCII: a character is an
    [ascii], a text is a [string]; codes above 127 have no letter case here
    and lie outside what is modelled.  The operating system, the clock, the
    network and the standard library's [urlparse] and [str] are not part of
    the program; they enter as explicit arguments (the file tree in
    traversal order, the successive answers of [datetime.now], the answer
    of the dataset host to each request, and for the report what the
    console and the file system do with each message and each write). *)

From Stdlib Require Import Bool Arith ZArith List Lia.
From Stdlib Require Import Ascii String.
From Stdlib Require Import DecimalString.
Import ListNotations.

Open Scope list_scope.
Open Scope string_scope.

(** ** Python string operations *)

Module Py.

(** The double-quote character and the one-character texts used below. *)
Definition dquote : ascii := ascii_of_nat 34.
Definition squote : ascii := ascii_of_nat 39.
Definition backslash : ascii := ascii_of_nat 92.
Definition dq : string := String dquote EmptyString.

(** [str.lower] on one ASCII character. *)
Definition lower_ascii (c : ascii) : ascii :=
  let n := nat_of_ascii c in
  if ((65 <=? n) && (n <=? 90))%nat then ascii_of_nat (n + 32) else c.

(** [str.lower]. *)
Fixpoint lower (s : string) : string :=
  match s with
  | EmptyString => EmptyString
  | String c s' => String (lower_ascii c) (lower s')
  end.

(** [str.isspace] on one ASCII character: tab to carriage return, the four
    separators 28 to 31, and the blank.  The regular-expression class
    [\s] is the same set. *)
Definition isspace (c : ascii) : bool :=
  let n := nat_of_ascii c in
  (((9 <=? n) && (n <=? 13)) || ((28 <=? n) && (n <=? 32)))%nat.

Fixpoint lstrip_by (p : ascii -> bool) (s : string) : string :=
  match s with
  | EmptyString => EmptyString
  | String c s' => if p c then lstrip_by p s' else s
  end.

Fixpoint rstrip_by (p : ascii -> bool) (s : string) : string :=
  match s with
  | EmptyString => EmptyString
  | String c s' =>
      match rstrip_by p s' with
      | EmptyString => if p c then EmptyString else String c EmptyString
      | r => String c r
      end
  end.

(** [s.strip()] *)
Definition strip (s : string) : string := lstrip_by isspace (rstrip_by isspace s).

(** [s.strip(chars)] *)
Definition strip_chars (chars : list ascii) (s : string) : string :=
  let p := fun c => existsb (Ascii.eqb c) chars in
  lstrip_by p (rstrip_by p s).

(** [s.startswith(p)] *)
Definition startswith (s p : string) : bool := String.prefix p s.

(** [k in s] *)
Fixpoint contains (k s : string) : bool :=
  match s with
  | EmptyString => String.prefix k EmptyString
  | String _ s' => String.prefix k s || contains k s'
  end.

(** [s.endswith(e)] *)
Fixpoint endswith (s e : string) : bool :=
  String.eqb s e ||
  match s with
  | EmptyString => false
  | String _ s' => endswith s' e
  end.

(** [s.replace(old, new)] for a non-empty [old]: the occurrences are
    replaced from the left and do not overlap.  [skip] counts the
    characters of an occurrence that are still to be dropped. *)
Fixpoint replace_from (old new : string) (skip : nat) (s : string) : string :=
  match s with
  | EmptyString => EmptyString
  | String c s' =>
      match skip with
      | S n => replace_from old new n s'
      | O =>
          if String.prefix old s
          then new ++ replace_from old new (String.length old - 1) s'
          else String c (replace_from old new 0 s')
      end
  end.

Definition replace (s old new : string) : string := replace_from old new 0 s.

(** [sep.join(xs)] *)
Fixpoint join (sep : string) (xs : list string) : string :=
  match xs with
  | [] => EmptyString
  | [x] => x
  | x :: rest => x ++ sep ++ join sep rest
  end.

(** [x in xs] for a set or list of texts. *)
Definition mem (x : string) (xs : list string) : bool :=
  existsb (String.eqb x) xs.

(** The first [n] characters of [s]. *)
Fixpoint take (n : nat) (s : string) : string :=
  match n, s with
  | S n', String c s' => String c (take n' s')
  | _, _ => EmptyString
  end.

End Py.

(** ** Regular expressions

    The four patterns of [scan_repository] use literals, classes of
    literal characters, [\s], greedy repetition of a single-character
    item, greedy options, alternation and capturing groups.  The matcher
    below is the backtracking matcher of Python's [re] on that fragment,
    always under [re.IGNORECASE], as [_scan_file] calls it.  Letter case
    is that of ASCII: on a text with other characters Python's IGNORECASE
    also lets the long s match s, the dotted and dotless i match i and the
    Kelvin sign match k, which this matcher does not do. *)

Module Re.

Inductive item : Type :=
| Lit (c : ascii)
| Class (negated : bool) (members : list ascii)
| Space.

Inductive regex : Type :=
| Eps
| One (i : item)
| Rep (least : nat) (i : item)
| Opt (r : regex)
| Cat (r1 r2 : regex)
| Alt (r1 r2 : regex)
| Group (n : nat) (r : regex).

Definition same_letter (a c : ascii) : bool :=
  Ascii.eqb (Py.lower_ascii a) (Py.lower_ascii c).

Definition item_matches (i : item) (c : ascii) : bool :=
  match i with
  | Lit a => same_letter a c
  | Class negated members => xorb negated (existsb (fun a => same_letter a c) members)
  | Space => Py.isspace c
  end.

(** Captures: the most recent binding of a group number comes first. *)
Definition captures : Type := list (nat * string).

Fixpoint group_text (caps : captures) (n : nat) : string :=
  match caps with
  | [] => EmptyString
  | (m, t) :: rest => if Nat.eqb m n then t else group_text rest n
  end.

Section Matcher.
Variable A : Type.

(** Greedy repetition of one item, at least [least] times: the longest
    run first, then shorter ones. *)
Fixpoint rep (i : item) (least : nat) (s : string) (k : string -> option A)
  : option A :=
  let stop := if Nat.eqb least 0 then k s else None in
  match s with
  | EmptyString => stop
  | String c s' =>
      if item_matches i c then
        match rep i (Nat.pred least) s' k with
        | Some a => Some a
        | None => stop
        end
      else stop
  end.

(** [exec r s caps k]: match [r] at the start of [s], then continue
    with [k] on the rest of the text; alternatives are tried in order. *)
Fixpoint exec (r : regex) (s : string) (caps : captures)
         (k : string -> captures -> option A) : option A :=
  match r with
  | Eps => k s caps
  | One i =>
      match s with
      | String c s' => if item_matches i c then k s' caps else None
      | EmptyString => None
      end
  | Rep least i => rep i least s (fun s' => k s' caps)
  | Opt r1 =>
      match exec r1 s caps k with
      | Some a => Some a
      | None => k s caps
      end
  | Cat r1 r2 => exec r1 s caps (fun s' caps' => exec r2 s' caps' k)
  | Alt r1 r2 =>
      match exec r1 s caps k with
      | Some a => Some a
      | None => exec r2 s caps k
      end
  | Group n r1 =>
      exec r1 s caps
        (fun s' caps' =>
           k s' ((n, Py.take (String.length s - String.length s') s) :: caps'))
  end.
End Matcher.

Arguments rep {A} i least s k.
Arguments exec {A} r s caps k.

(** One attempt at the start of [s]: the rest of the text and the groups. *)
Definition match_here (r : regex) (s : string) : option (string * captures) :=
  exec r s [] (fun s' caps => Some (s', caps)).

Fixpoint ngroups (r : regex) : nat :=
  match r with
  | Eps | One _ | Rep _ _ => 0
  | Opt r1 => ngroups r1
  | Cat r1 r2 | Alt r1 r2 => ngroups r1 + ngroups r2
  | Group _ r1 => S (ngroups r1)
  end.

(** What [re.findall] yields for one match: the matched text when the
    pattern has no group, the text of the group when it has one, the tuple
    of all groups otherwise; a group that took no part gives the empty
    text. *)
Inductive found : Type :=
| FStr (s : string)
| FTuple (gs : list string).

Definition found_of (r : regex) (s rest : string) (caps : captures) : found :=
  match ngroups r with
  | 0 => FStr (Py.take (String.length s - String.length rest) s)
  | 1 => FStr (group_text caps 1)
  | n => FTuple (map (group_text caps) (seq 1 n))
  end.

(** [re.findall]: the matches from left to right, without overlap.  After
    a match the search resumes where the match ended; [skip] counts the
    characters of the last match still to pass. *)
Fixpoint findall_from (r : regex) (skip : nat) (s : string) : list found :=
  match s with
  | EmptyString =>
      match skip, match_here r EmptyString with
      | O, Some (rest, caps) => [found_of r EmptyString rest caps]
      | _, _ => []
      end
  | String _ s' =>
      match skip with
      | S n => findall_from r n s'
      | O =>
          match match_here r s with
          | Some (rest, caps) =>
              found_of r s rest caps
                :: findall_from r (String.length s - String.length rest - 1) s'
          | None => findall_from r 0 s'
          end
      end
  end.

Definition findall (r : regex) (s : string) : list found := findall_from r 0 s.

(** The literal text [t] as a pattern. *)
Fixpoint lit (t : string) : regex :=
  match t with
  | EmptyString => Eps
  | String c EmptyString => One (Lit c)
  | String c t' => Cat (One (Lit c)) (lit t')
  end.

Fixpoint cat (rs : list regex) : regex :=
  match rs with
  | [] => Eps
  | [r] => r
  | r :: rest => Cat r (cat rest)
  end.

End Re.

(** ** The scanner *)

Module Scan.

Import Py Re.

(** One dictionary of [datasets_found].  The four keys written by
    [_scan_file] are always present; the four keys written by
    [enrich_with_licences] are absent ([None]) until then. *)
Record entry : Type := mk_entry {
  type : string;
  reference : string;
  file : string;
  found_at : string;
  licence : option string;
  licence_source : option string;
  notes : option string;
  risk_flag : option string
}.

(** *** The patterns of [scan_repository] *)

Definition quote : regex := One (Class false [squote; dquote]).
Definition not_quote : item := Class true [squote; dquote].

(** The pattern texts are quoted with [D] standing for the escaped
    double-quote character.

    [load_dataset\s*\(\s*['D]([^'D]+)['D]] *)
Definition re_huggingface_load_dataset : regex :=
  cat [lit "load_dataset"; Rep 0 Space; lit "("; Rep 0 Space;
       quote; Group 1 (Rep 1 not_quote); quote].

(** [(?:pd\.read_csv|pandas\.read_csv)\s*\(\s*['D]([^'D]+)['D]] *)
Definition re_pandas_read_csv : regex :=
  cat [Alt (lit "pd.read_csv") (lit "pandas.read_csv"); Rep 0 Space; lit "(";
       Rep 0 Space; quote; Group 1 (Rep 1 not_quote); quote].

(** [['D]([^'D]*(?:\.csv|\.jsonl|\.parquet|\.zip))['D]] *)
Definition re_dataset_urls : regex :=
  cat [quote;
       Group 1 (Cat (Rep 0 not_quote)
                    (Alt (lit ".csv")
                       (Alt (lit ".jsonl") (Alt (lit ".parquet") (lit ".zip")))));
       quote].

(** [['D]?(https?://)?(?:www\.)?huggingface\.co/datasets/([^'D\\s]+)['D]?]

    The pattern is a raw string, so inside the last class the two
    characters backslash, backslash stand for one literal backslash and
    the [s] after them is the letter: the class excludes the two quotes,
    the backslash and the letter s (in both cases, under IGNORECASE). *)
Definition re_huggingface_datasets : regex :=
  cat [Opt quote;
       Opt (Group 1 (cat [lit "http"; Opt (One (Lit "s")); lit "://"]));
       Opt (lit "www.");
       lit "huggingface.co/datasets/";
       Group 2 (Rep 1 (Class true [squote; dquote; backslash; "s"%char]));
       Opt quote].

(** The dictionary [patterns], in insertion order. *)
Definition patterns : list (string * regex) :=
  [ ("huggingface_load_dataset", re_huggingface_load_dataset);
    ("pandas_read_csv", re_pandas_read_csv);
    ("dataset_urls", re_dataset_urls);
    ("huggingface_datasets", re_huggingface_datasets) ].

Definition file_extensions : list string :=
  [".py"; ".ipynb"; ".md"; ".txt"; ".yml"; ".yaml"; ".json"].

Definition skip_dirs : list string :=
  [".git"; ".passport"; "node_modules"; "venv"; "env"; "dist"; "build";
   ".ipynb_checkpoints"; "data"].

Definition skip_files : list string :=
  ["scan.py"; "README.md"; ".github/workflows/passport.yml"].

Definition GENERIC_TOKENS : list string :=
  ["name"; "dataset_name"; ".csv"; ".jsonl"; ".parquet"; ".zip"].

(** *** Extraction of one file *)

(** The normalisation of one element of [re.findall]: the second group
    under [huggingface_datasets], the joined groups under any other
    pattern with several groups, the text itself otherwise; then
    [strip]. *)
Definition normalise (pattern_type : string) (m : found) : string :=
  let m' :=
    match m with
    | FTuple gs =>
        if String.eqb pattern_type "huggingface_datasets"
        then nth 1 gs EmptyString
        else join EmptyString gs
    | FStr s => s
    end in
  strip m'.

(** [not ref or ref in GENERIC_TOKENS or len(ref) < 3] *)
Definition discarded (ref : string) : bool :=
  String.eqb ref EmptyString || mem ref GENERIC_TOKENS || (String.length ref <? 3)%nat.

(** The f-string [type:reference.lower()]. *)
Definition key (d : entry) : string := type d ++ ":" ++ lower (reference d).

(** The scanner object: the list [datasets_found], and how many times the
    clock has been read. *)
Record scanner : Type := mk_scanner {
  datasets_found : list entry;
  now_calls : nat
}.

Section Extraction.
(** The successive answers of [datetime.now().isoformat()]. *)
Variable clock : nat -> string.

(** The body of the inner loop of [_scan_file] for one match. *)
Definition scan_match (relative_path pattern_type : string)
           (self : scanner) (m : found) : scanner :=
  let ref := normalise pattern_type m in
  if discarded ref then self
  else
    let e := mk_entry pattern_type ref relative_path (clock (now_calls self))
                      None None None None in
    let found := datasets_found self in
    if existsb (fun d => String.eqb (key d) (key e)) found
    then mk_scanner found (S (now_calls self))
    else mk_scanner (found ++ [e]) (S (now_calls self)).

(** The body of the outer loop: one pattern over the whole text. *)
Definition scan_pattern (relative_path text : string)
           (self : scanner) (p : string * regex) : scanner :=
  fold_left (scan_match relative_path (fst p)) (findall (snd p) text) self.

(** [_scan_file]; [text = None] when the file cannot be opened or read. *)
Definition _scan_file (text : option string) (relative_path : string)
           (patterns : list (string * regex)) (self : scanner) : scanner :=
  match text with
  | None => self
  | Some t => fold_left (scan_pattern relative_path t) patterns self
  end.

(** *** The walk over the tree *)

(** One path yielded by [root_dir.rglob], for the root [.] that [main]
    uses: its components below the root, whether it is a directory, and
    the text read from it (decoded leniently), if it can be read. *)
Record path : Type := mk_path {
  parts : list string;
  is_dir : bool;
  content : option string
}.

(** The text of [s] from its last dot on, if it has a dot. *)
Fixpoint from_last_dot (s : string) : option string :=
  match s with
  | EmptyString => None
  | String c s' =>
      match from_last_dot s' with
      | Some t => Some t
      | None => if Ascii.eqb c "."%char then Some s else None
      end
  end.

(** [PurePath.suffix]: the last dot of the name must be neither its
    first nor its last character. *)
Definition suffix (p : path) : string :=
  match last (parts p) EmptyString with
  | EmptyString => EmptyString
  | String _ rest =>
      match from_last_dot rest with
      | Some t => if (String.length t <=? 1)%nat then EmptyString else t
      | None => EmptyString
      end
  end.

(** [str(relative_path).replace] of backslashes by slashes. *)
Definition relative_name (p : path) : string :=
  replace (join "/" (parts p)) (String backslash EmptyString) "/".

(** The four tests that precede [_scan_file] in [scan_repository]. *)
Definition eligible (p : path) : bool :=
  negb (is_dir p)
  && mem (lower (suffix p)) file_extensions
  && negb (existsb (fun part => mem part skip_dirs || startswith part ".") (parts p))
  && negb (mem (relative_name p) skip_files).

Definition scan_path (self : scanner) (p : path) : scanner :=
  if eligible p then _scan_file (content p) (relative_name p) patterns self
  else self.

(** [scan_repository] on a fresh scanner, as [main] calls it. *)
Definition scan_repository (tree : list path) : list entry :=
  datasets_found (fold_left scan_path tree (mk_scanner [] 0)).

(** *** Discovery order

    The three nested loops visit the matches of the whole tree in one
    fixed order.  A [capture] is one visit: the pattern, the file and
    the element of [re.findall]. *)
Definition capture : Type := (string * string * found)%type.

Definition pattern_of (x : capture) : string := fst (fst x).
Definition origin_of (x : capture) : string := snd (fst x).

(** The value a capture is normalised to. *)
Definition value_of (x : capture) : string :=
  normalise (pattern_of x) (snd x).

(** The capture survives the filter of [_scan_file]. *)
Definition kept (x : capture) : bool := negb (discarded (value_of x)).

(** The pair a reference is identified by, for a capture and for an
    entry, and the key text built from it. *)
Definition identity_of (x : capture) : string * string :=
  (pattern_of x, lower (value_of x)).

Definition ident (d : entry) : string * string :=
  (type d, lower (reference d)).

Definition key_of (x : capture) : string :=
  pattern_of x ++ ":" ++ lower (value_of x).

(** The entry [_scan_file] builds for a capture at clock reading [n]. *)
Definition entry_of (x : capture) (n : nat) : entry :=
  mk_entry (pattern_of x) (value_of x) (origin_of x) (clock n)
           None None None None.

(** Entry [d] records capture [x]. *)
Definition made_from (d : entry) (x : capture) : Prop :=
  type d = pattern_of x /\ reference d = value_of x /\ file d = origin_of x.

Definition step (self : scanner) (x : capture) : scanner :=
  scan_match (origin_of x) (pattern_of x) self (snd x).

Definition captures_of_path (p : path) : list capture :=
  if eligible p then
    match content p with
    | Some text =>
        flat_map (fun pr => map (fun m => (fst pr, relative_name p, m))
                                (findall (snd pr) text))
                 patterns
    | None => []
    end
  else [].

Definition all_captures (tree : list path) : list capture :=
  flat_map captures_of_path tree.

(** [x] is at position [j] and no kept capture before it has its
    identity. *)
Definition first_at (cs : list capture) (j : nat) (x : capture) : Prop :=
  nth_error cs j = Some x /\ kept x = true /\
  forall i z, i < j -> nth_error cs i = Some z -> kept z = true ->
              identity_of z <> identity_of x.

Fixpoint no_colon (t : string) : bool :=
  match t with
  | EmptyString => true
  | String c t' => negb (Ascii.eqb c ":"%char) && no_colon t'
  end.

End Extraction.

End Scan.

(** ** The classifier *)

Module Classify.

Import Py Scan.

(** Python exceptions, and computations that return or raise. *)
Inductive exn : Type :=
| URLError
| HTTPError (status : nat)
| TimeoutError
| JSONDecodeError
| AttributeError
| ValueError (msg : string).

Inductive result (A : Type) : Type :=
| Return (a : A)
| Raise (e : exn).

Arguments Return {A} a.
Arguments Raise {A} e.

Definition bind {A B : Type} (m : result A) (f : A -> result B) : result B :=
  match m with
  | Return a => f a
  | Raise e => Raise e
  end.

Notation "x <- m ;; f" := (bind m (fun x => f))
  (at level 61, m at next level, right associativity).

(** The values [json.loads] builds.  A float is the dyadic number
    [mantissa * 2 ^ exponent]; the decoder also accepts NaN and the two
    infinities.  A dictionary keeps its pairs in the order of the text; a
    later pair with the same key replaces an earlier one. *)
#[local] Set Warnings "-register-all".
Inductive json : Type :=
| JNull
| JBool (b : bool)
| JInt (n : Z)
| JFloat (mantissa exponent : Z)
| JNaN
| JInf (negative : bool)
| JStr (s : string)
| JArr (items : list json)
| JObj (pairs : list (string * json)).

(** Python truth value. *)
Definition truthy (v : json) : bool :=
  match v with
  | JNull => false
  | JBool b => b
  | JInt n => negb (Z.eqb n 0)
  | JFloat m _ => negb (Z.eqb m 0)
  | JNaN | JInf _ => true
  | JStr s => negb (String.eqb s EmptyString)
  | JArr items => match items with [] => false | _ => true end
  | JObj pairs => match pairs with [] => false | _ => true end
  end.

(** The value bound to [k], if any. *)
Fixpoint lookup (k : string) (pairs : list (string * json)) : option json :=
  match pairs with
  | [] => None
  | (k', v) :: rest =>
      match lookup k rest with
      | Some v' => Some v'
      | None => if String.eqb k' k then Some v else None
      end
  end.

(** [v.get(k)]: [None] for a missing key; [AttributeError] when [v] is
    not a dictionary. *)
Definition get (v : json) (k : string) : result json :=
  match v with
  | JObj pairs =>
      match lookup k pairs with
      | Some x => Return x
      | None => Return JNull
      end
  | _ => Raise AttributeError
  end.

(** What the dataset host does with one request: [urlopen] or [read]
    raises, or a body arrives, which [json.loads] decodes or rejects. *)
Inductive response : Type :=
| Fails (e : exn)
| Body (decoded : option json).

Definition permissive : list string :=
  ["cc0"; "public domain"; "open government"; "odc"; "apache"; "mit"; "bsd"].

Definition _risk_from_licence (lic : string) : string :=
  let lic_l := lower lic in
  if existsb (fun k => contains k lic_l) permissive then "low"
  else if contains "cc-by" lic_l || contains "cc by" lic_l then "low"
  else if mem lic_l ["unknown"; EmptyString; "none"; "other"] then "review"
  else "review".

Definition _looks_like_url (s : string) : bool :=
  startswith s "http://" || startswith s "https://".

(** The markers [_risk_from_licence] looks for, from both tests. *)
Definition markers : list string := (permissive ++ ["cc-by"; "cc by"])%list.

Section Classifier.
(** [urlparse(ref).netloc], which raises [ValueError] on some texts. *)
Variable urlparse_netloc : string -> result string.
(** [str(v)] for a decoded value [v] that is not a text. *)
Variable str_of : json -> string.

Definition py_str (v : json) : string :=
  match v with
  | JStr s => s
  | _ => str_of v
  end.

(** The statements of [_fetch_hf_license] inside [try], after the
    request has been answered by the body [data]. *)
Definition licence_of_card (data : json) : result (option string) :=
  c <- get data "cardData" ;;
  let card := if truthy c then c else JObj [] in
  lic <- get card "license" ;;
  lic <- (if truthy lic then Return lic
          else
            ls <- get card "licenses" ;;
            match ls with
            | JArr (first :: _) =>
                match first with
                | JObj pairs =>
                    match lookup "name" pairs with
                    | Some name => Return name
                    | None => Return lic
                    end
                | JStr _ => Return first
                | _ => Return lic
                end
            | _ => Return lic
            end) ;;
  if truthy lic then Return (Some (py_str lic)) else Return None.

Definition request (answer : response) : result (option string) :=
  match answer with
  | Fails e => Raise e
  | Body None => Raise JSONDecodeError
  | Body (Some data) => licence_of_card data
  end.

Definition api_url (hf_id : string) : string :=
  "https://huggingface.co/api/datasets/" ++ hf_id.

(** [_fetch_hf_license]: every exception is caught and gives [None]. *)
Definition _fetch_hf_license (net : string -> response) (hf_id : string)
  : option string :=
  match request (net (api_url hf_id)) with
  | Return (Some lic) => Some lic
  | Return None => None
  | Raise _ => None
  end.

(** The identifier sent to the host: [replace], [strip], [strip("/")]. *)
Definition normalise_id (hf_id : string) : string :=
  strip_chars ["/"%char] (strip (replace hf_id "https://huggingface.co/datasets/" EmptyString)).

Definition classification : Type := (string * string * string * string)%type.

Definition _classify_reference (net : string -> response) (d : entry)
  : result classification :=
  let ref := reference d in
  let ptype := type d in
  let hf_id :=
    if String.eqb ptype "huggingface_datasets" then Some ref
    else if String.eqb ptype "huggingface_load_dataset" then Some ref
    else None in
  match hf_id with
  | Some (String c rest) =>
      let hf_id := normalise_id (String c rest) in
      match _fetch_hf_license net hf_id with
      | Some (String l lic) =>
          Return (String l lic, "huggingface_api",
                  "License read from HF card for '" ++ hf_id ++ "'",
                  _risk_from_licence (String l lic))
      | _ =>
          Return ("Unknown", "heuristic",
                  "No license field found for '" ++ hf_id ++ "'", "review")
      end
  | _ =>
      if _looks_like_url ref then
        netloc <- urlparse_netloc ref ;;
        let host := lower netloc in
        if contains "data.gov" host || contains "europa.eu" host then
          Return ("Open Government", "heuristic",
                  "Public sector domain '" ++ host ++ "'", "low")
        else if contains "kaggle.com" host then
          Return ("Varies (Kaggle)", "heuristic",
                  "Check the dataset page license on Kaggle", "review")
        else if contains "huggingface.co" host then
          Return ("Unknown", "heuristic",
                  "HF link but not a dataset card; inspect manually", "review")
        else
          Return ("Unknown", "heuristic", "External host '" ++ host ++ "'", "review")
      else if existsb (fun ext => endswith (lower ref) ext)
                      [".csv"; ".jsonl"; ".parquet"; ".zip"] then
        Return ("Proprietary/Project-internal", "heuristic",
                "Local file path in repo", "review")
      else
        Return ("Unknown", "heuristic",
                "Pattern matched but no license inference", "review")
  end.

(** The four assignments of the loop body of [enrich_with_licences]. *)
Definition set_classification (d : entry) (c : classification) : entry :=
  let '(licence, source, notes, risk) := c in
  mk_entry (type d) (reference d) (file d) (found_at d)
           (Some licence) (Some source) (Some notes) (Some risk).

(** The answers of the host, one per reference of the list: [net i] is
    what the host answers while the reference at position [i] is
    classified. *)
Variable net : nat -> string -> response.

(** The loop of [enrich_with_licences] from position [i] on: the list as
    the loop leaves it, and the exception that ended it, if any.  The
    dictionaries are updated in place, so those before the one whose
    classification raises keep their new keys. *)
Fixpoint enrich_from (i : nat) (ds : list entry) : list entry * option exn :=
  match ds with
  | [] => ([], None)
  | d :: rest =>
      match _classify_reference (net i) d with
      | Raise e => (d :: rest, Some e)
      | Return c =>
          let (rest', e) := enrich_from (S i) rest in
          (set_classification d c :: rest', e)
      end
  end.

Definition enrich_with_licences (datasets_found : list entry)
  : list entry * option exn :=
  enrich_from 0 datasets_found.

(** Entry [b] is entry [a] with the four keys of its own classification. *)
Definition classified_from (a b : entry) : Prop :=
  exists i c, _classify_reference (net i) a = Return c /\ b = set_classification a c.

End Classifier.

(** The entry is a hosted-dataset reference: its kind is the dataset URL
    or the loader call. *)
Definition hosted (d : entry) : Prop :=
  type d = "huggingface_datasets" \/ type d = "huggingface_load_dataset".

(** The ways a lookup fails.  A value is absent or empty when the key is
    missing or bound to [None], the empty text, the empty list or the
    empty dictionary.  A body has no licence field when it is a dictionary
    whose card data is absent or empty, or whose card data is a dictionary
    with both [license] and [licenses] absent or empty. *)
Definition absent_or_empty (v : option json) : Prop :=
  v = None \/ v = Some JNull \/ v = Some (JStr EmptyString) \/
  v = Some (JArr []) \/ v = Some (JObj []).

Definition no_licence_field (data : json) : Prop :=
  exists pairs,
    data = JObj pairs /\
    (absent_or_empty (lookup "cardData" pairs) \/
     exists card,
       lookup "cardData" pairs = Some (JObj card) /\
       absent_or_empty (lookup "license" card) /\
       absent_or_empty (lookup "licenses" card)).

(** The request raises (network error, timeout, HTTP error status), the
    body is not JSON, or the body has no licence field. *)
Definition lookup_fails (answer : response) : Prop :=
  match answer with
  | Fails _ => True
  | Body None => True
  | Body (Some data) => no_licence_field data
  end.

(** [urllib.parse.urlsplit], as far as [netloc] goes: tabs and line ends
    are removed, the scheme ends at the first colon, and after two slashes
    the host part runs up to the first of slash, question mark and hash.
    A host part with an unmatched square bracket raises [ValueError].
    (Recent releases also reject a host in matched brackets that is not
    an IP literal; that check is not modelled, so this function stands
    for [urlparse] only on texts whose host part has no matched pair of
    brackets.  The properties below take [urlparse] as a parameter and
    use this function at such texts only.) *)
Definition is_unsafe (c : ascii) : bool :=
  let n := nat_of_ascii c in
  (Nat.eqb n 9 || Nat.eqb n 10 || Nat.eqb n 13).

Fixpoint remove_unsafe (s : string) : string :=
  match s with
  | EmptyString => EmptyString
  | String c s' => if is_unsafe c then remove_unsafe s' else String c (remove_unsafe s')
  end.

Fixpoint after_colon (s : string) : string :=
  match s with
  | EmptyString => EmptyString
  | String c s' => if Ascii.eqb c ":"%char then s' else after_colon s'
  end.

Fixpoint upto_delimiter (s : string) : string :=
  match s with
  | EmptyString => EmptyString
  | String c s' =>
      if existsb (Ascii.eqb c) ["/"; "?"; "#"]%char then EmptyString
      else String c (upto_delimiter s')
  end.

(** For a text that [_looks_like_url]: the scheme is http or https. *)
Definition urlsplit_netloc (url : string) : result string :=
  match after_colon (remove_unsafe url) with
  | String "/" (String "/" rest) =>
      let netloc := upto_delimiter rest in
      if xorb (contains "[" netloc) (contains "]" netloc)
      then Raise (ValueError "Invalid IPv6 URL")
      else Return netloc
  | _ => Return EmptyString
  end.

End Classify.

(** ** Sample inputs *)

Module Scenario.

Import Py Re Scan Classify.

(** The text [f("arg")]. *)
Definition call (f arg : string) : string := f ++ "(" ++ dq ++ arg ++ dq ++ ")".

(** A readable Python file [train.py] at the root, holding [text]. *)
Definition a_file (text : string) : path :=
  mk_path ["train.py"] false (Some text).

Definition second_file (text : string) : path :=
  mk_path ["docs"; "notes.md"] false (Some text).

(** A clock that always gives the same reading. *)
Definition noon : nat -> string := fun _ => "2024-01-01T12:00:00".

Definition loader_text : string := call "load_dataset" "squad".
Definition csv_text : string := call "pd.read_csv" "local/data.csv".
Definition card_text : string := dq ++ "https://huggingface.co/datasets/org/name" ++ dq.
Definition two_cases_text : string :=
  call "load_dataset" "NAME" ++ " " ++ call "load_dataset" "Name".
Definition upper_csv_text : string := "x = " ++ dq ++ ".CSV" ++ dq.
Definition bracket_text : string := call "pd.read_csv" "http://[x/data.csv".

(** A host that cannot be reached, and one that answers every request
    with a card whose licence is cc-by-4.0. *)
Definition unreachable : string -> response := fun _ => Fails URLError.
Definition cc_by_card : string -> response :=
  fun _ => Body (Some (JObj [("cardData", JObj [("license", JStr "cc-by-4.0")])])).

(** A stand-in for [str] on values that are not texts. *)
Definition some_str : json -> string := fun _ => "value".

End Scenario.

(** ** What a match consumes

    A declarative reading of the matcher, used to state what the text of
    a group can be: [matches r s caps s' caps'] says that [r] can consume
    a prefix of [s], leaving [s'], and turn the captures [caps] into
    [caps']. *)

Module Sem.

Import Py Re.

(** [s] starts with [n] characters that all match [i], followed by [s']. *)
Inductive run_of (i : item) : nat -> string -> string -> Prop :=
| run_nil (s : string) : run_of i 0 s s
| run_cons (n : nat) (c : ascii) (s s' : string) :
    item_matches i c = true -> run_of i n s s' ->
    run_of i (S n) (String c s) s'.

Inductive matches : regex -> string -> captures -> string -> captures -> Prop :=
| m_eps (s : string) (caps : captures) : matches Eps s caps s caps
| m_one (i : item) (c : ascii) (s : string) (caps : captures) :
    item_matches i c = true -> matches (One i) (String c s) caps s caps
| m_rep (least n : nat) (i : item) (s s' : string) (caps : captures) :
    least <= n -> run_of i n s s' -> matches (Rep least i) s caps s' caps
| m_opt_some (r : regex) (s s' : string) (caps caps' : captures) :
    matches r s caps s' caps' -> matches (Opt r) s caps s' caps'
| m_opt_none (r : regex) (s : string) (caps : captures) :
    matches (Opt r) s caps s caps
| m_cat (r1 r2 : regex) (s s1 s2 : string) (caps caps1 caps2 : captures) :
    matches r1 s caps s1 caps1 -> matches r2 s1 caps1 s2 caps2 ->
    matches (Cat r1 r2) s caps s2 caps2
| m_alt_left (r1 r2 : regex) (s s' : string) (caps caps' : captures) :
    matches r1 s caps s' caps' -> matches (Alt r1 r2) s caps s' caps'
| m_alt_right (r1 r2 : regex) (s s' : string) (caps caps' : captures) :
    matches r2 s caps s' caps' -> matches (Alt r1 r2) s caps s' caps'
| m_group (n : nat) (r : regex) (s s' : string) (caps caps' : captures) :
    matches r s caps s' caps' ->
    matches (Group n r) s caps s'
            ((n, take (String.length s - String.length s') s) :: caps').

(** The groups of a pattern, with their numbers. *)
Fixpoint groups_in (r : regex) : list (nat * regex) :=
  match r with
  | Eps | One _ | Rep _ _ => []
  | Opt r1 => groups_in r1
  | Cat r1 r2 | Alt r1 r2 => (groups_in r1 ++ groups_in r2)%list
  | Group n r1 => (n, r1) :: groups_in r1
  end.

(** Every character of [s] satisfies [p]. *)
Fixpoint all_chars (p : ascii -> bool) (s : string) : bool :=
  match s with
  | EmptyString => true
  | String c s' => p c && all_chars p s'
  end.

Definition is_quote (c : ascii) : bool :=
  Ascii.eqb c squote || Ascii.eqb c dquote.

Definition is_letter_s (c : ascii) : bool :=
  Ascii.eqb c "s"%char || Ascii.eqb c "S"%char.

(** The character is no quote; the character is no quote, no letter s
    and no backslash. *)
Definition unquoted (c : ascii) : bool := negb (is_quote c).

Definition plain (c : ascii) : bool :=
  negb (is_quote c) && negb (is_letter_s c) && negb (Ascii.eqb c backslash).

(** The text is ASCII.  Only on such texts do [re.IGNORECASE] and
    [str.lower] agree on which characters are the same letter (outside
    ASCII, IGNORECASE also takes the long s for s and the Kelvin sign
    for k, which [str.lower] leaves alone). *)
Definition is_ascii (c : ascii) : bool := (nat_of_ascii c <? 128)%nat.

Definition ascii_text (s : string) : bool := all_chars is_ascii s.

(** The endings the bare-literal pattern asks for, which are also the ones
    [_classify_reference] tests. *)
Definition data_extensions : list string := [".csv"; ".jsonl"; ".parquet"; ".zip"].

End Sem.

(** ** The report *)

Module Report.

Import Py Scan Classify.

(** [str(n)] for a count. *)
Definition str_of_nat (n : nat) : string :=
  NilEmpty.string_of_uint (Nat.to_uint n).

Definition nl : string := String (ascii_of_nat 10) EmptyString.

Definition is_upper (c : ascii) : bool :=
  let n := nat_of_ascii c in ((65 <=? n) && (n <=? 90))%nat.

Definition is_lower (c : ascii) : bool :=
  let n := nat_of_ascii c in ((97 <=? n) && (n <=? 122))%nat.

Definition upper_ascii (c : ascii) : ascii :=
  if is_lower c then ascii_of_nat (nat_of_ascii c - 32) else c.

(** [str.title]: a letter after a letter is lower-cased, a letter after
    anything else is upper-cased. *)
Fixpoint title_from (previous_is_cased : bool) (s : string) : string :=
  match s with
  | EmptyString => EmptyString
  | String c s' =>
      let cased := is_upper c || is_lower c in
      String (if cased
              then (if previous_is_cased then lower_ascii c else upper_ascii c)
              else c)
             (title_from cased s')
  end.

Definition title (s : string) : string := title_from false s.

(** The dictionary [type_counts], in insertion order, and the statement
    [type_counts[t] = type_counts.get(t, 0) + 1] on it. *)
Fixpoint bump (t : string) (type_counts : list (string * nat))
  : list (string * nat) :=
  match type_counts with
  | [] => [(t, 1)]
  | (k, n) :: rest =>
      if String.eqb k t then (k, n + 1) :: rest else (k, n) :: bump t rest
  end.

Definition _get_type_summary (datasets_found : list entry) : list (string * nat) :=
  fold_left (fun type_counts d => bump (type d) type_counts) datasets_found [].

(** [type_counts.get(t, 0)] *)
Fixpoint get_count (type_counts : list (string * nat)) (t : string) : nat :=
  match type_counts with
  | [] => 0
  | (k, n) :: rest => if String.eqb k t then n else get_count rest t
  end.

(** The dictionary [summary_data]. *)
Record summary : Type := mk_summary {
  scanned_at : string;
  total_datasets : nat;
  datasets : list entry;
  types : list (string * nat)
}.

(** [d.get(key, default)] on a key that enrichment writes. *)
Definition get_or (field : option string) (default : string) : string :=
  match field with
  | Some v => v
  | None => default
  end.

Definition pretty (dtype : string) : string := title (replace dtype "_" " ").

(** The lines appended for reference number [i]. *)
Definition reference_section (i : nat) (d : entry) : string :=
  let lic := get_or (licence d) "Unknown" in
  let src := get_or (licence_source d) EmptyString in
  let risk := get_or (risk_flag d) "review" in
  let notes := get_or (notes d) EmptyString in
  "### " ++ str_of_nat i ++ ". " ++ reference d ++ nl ++ nl
  ++ "- **Type:** " ++ pretty (type d) ++ nl
  ++ "- **File:** `" ++ file d ++ "`" ++ nl
  ++ "- **Licence:** " ++ lic ++ "  " ++ nl
  ++ "- **Source:** " ++ src ++ "  " ++ nl
  ++ "- **Risk:** " ++ risk ++ "  " ++ nl
  ++ (match notes with
      | EmptyString => EmptyString
      | _ => "- **Notes:** " ++ notes ++ nl
      end)
  ++ nl.

(** [enumerate(datasets, i)] turned into sections. *)
Fixpoint reference_sections (i : nat) (ds : list entry) : string :=
  match ds with
  | [] => EmptyString
  | d :: rest => reference_section i d ++ reference_sections (S i) rest
  end.

Definition type_line (item : string * nat) : string :=
  "- **" ++ pretty (fst item) ++ ":** " ++ str_of_nat (snd item) ++ nl.

Definition no_datasets_text : string :=
  nl ++ "## No datasets found" ++ nl ++ nl
  ++ "No dataset references were detected in this repository." ++ nl.

Definition footer : string :=
  nl ++ "---" ++ nl ++ "*Generated by AI Passport Scanner*" ++ nl.

Definition _generate_markdown_summary (summary_data : summary) : string :=
  "# AI Passport - Dataset Summary" ++ nl
  ++ "**Scanned at:** " ++ scanned_at summary_data ++ "  " ++ nl
  ++ "**Total datasets found:** " ++ str_of_nat (total_datasets summary_data)
  ++ nl ++ nl
  ++ "## Dataset Types" ++ nl ++ nl
  ++ String.concat EmptyString (map type_line (types summary_data))
  ++ (match datasets summary_data with
      | [] => no_datasets_text
      | ds => nl ++ "## Dataset References" ++ nl ++ nl ++ reference_sections 1 ds
      end)
  ++ footer.

(** *** Writing the two files

    [generate_passport] prints a message, creates the directory, opens
    and writes [summary.json], opens and writes [summary.md], and prints
    a second message.  Each of these steps can raise; what the operating
    system does with them is not part of the program and enters as a
    [filesystem] and a [console]: for each step, the exception it raises,
    if it raises. *)
Inductive write_error : Type :=
| OSError (name : string)
| UnicodeEncodeError.

Record filesystem : Type := mk_filesystem {
  mkdir : option write_error;
  open_json : option write_error;
  dump_json : option write_error;
  open_md : option write_error;
  write_md : option write_error
}.

(** The seven progress messages of a run, in the order in which they are
    printed: at the start of [main], at the start and at the end of
    [scan_repository], at the start of [enrich_with_licences], at the
    start and at the end of [generate_passport], and at the end of
    [main].  (The warning of [scan_repository] is printed only when
    [_scan_file] raises, which it does not.) *)
Record console : Type := mk_console {
  say_starting : option write_error;
  say_scanning : option write_error;
  say_found : option write_error;
  say_classifying : option write_error;
  say_generating : option write_error;
  say_generated : option write_error;
  say_completed : option write_error
}.

Definition console_works (out : console) : Prop :=
  say_starting out = None /\ say_scanning out = None /\ say_found out = None /\
  say_classifying out = None /\ say_generating out = None /\
  say_generated out = None /\ say_completed out = None.

Definition filesystem_works (fs : filesystem) : Prop :=
  mkdir fs = None /\ open_json fs = None /\ dump_json fs = None /\
  open_md fs = None /\ write_md fs = None.

(** What the run has done to one output file: nothing, opened it for
    writing without completing the write, or written [content]. *)
Inductive file_state (A : Type) : Type :=
| Untouched
| Partial
| Complete (content : A).

Arguments Untouched {A}.
Arguments Partial {A}.
Arguments Complete {A} content.

(** The two files; [summary.json] is given by the dictionary that
    [json.dump] serialises. *)
Record outputs : Type := mk_outputs {
  summary_json : file_state summary;
  summary_md : file_state string
}.

Definition nothing_written : outputs := mk_outputs Untouched Untouched.

(** [generate_passport]: the state of the two files when it ends, and
    the exception that ended it, if any.  [now] is the clock reading it
    takes for [scanned_at]. *)
Definition generate_passport (out : console) (fs : filesystem) (now : string)
           (datasets_found : list entry) : outputs * option write_error :=
  let summary_data :=
    mk_summary now (List.length datasets_found) datasets_found
               (_get_type_summary datasets_found) in
  match say_generating out with
  | Some e => (nothing_written, Some e)
  | None =>
  match mkdir fs with
  | Some e => (nothing_written, Some e)
  | None =>
  match open_json fs with
  | Some e => (nothing_written, Some e)
  | None =>
  match dump_json fs with
  | Some e => (mk_outputs Partial Untouched, Some e)
  | None =>
  match open_md fs with
  | Some e => (mk_outputs (Complete summary_data) Untouched, Some e)
  | None =>
  match write_md fs with
  | Some e => (mk_outputs (Complete summary_data) Partial, Some e)
  | None =>
      (mk_outputs (Complete summary_data)
                  (Complete (_generate_markdown_summary summary_data)),
       say_generated out)
  end end end end end end.

(** How a run can end by an exception: in the enrichment, or in a step
    that prints or writes. *)
Inductive failure : Type :=
| Classification (e : exn)
| Output (e : write_error).

(** [main]: scan, enrich, write, with the messages printed on the way.
    An exception before [generate_passport] ends the run with nothing
    written; an exception of [generate_passport] ends it with the files
    as that call left them. *)
Definition main (clock : nat -> string)
           (urlparse_netloc : string -> result string) (str_of : json -> string)
           (net : nat -> string -> response) (out : console) (fs : filesystem)
           (tree : list path)
  : outputs * option failure :=
  match say_starting out with
  | Some e => (nothing_written, Some (Output e))
  | None =>
  match say_scanning out with
  | Some e => (nothing_written, Some (Output e))
  | None =>
  let scanner := fold_left (scan_path clock) tree (mk_scanner [] 0) in
  match say_found out with
  | Some e => (nothing_written, Some (Output e))
  | None =>
  match say_classifying out with
  | Some e => (nothing_written, Some (Output e))
  | None =>
  match enrich_with_licences urlparse_netloc str_of net (datasets_found scanner) with
  | (_, Some e) => (nothing_written, Some (Classification e))
  | (enriched, None) =>
      match generate_passport out fs (clock (now_calls scanner)) enriched with
      | (written, Some e) => (written, Some (Output e))
      | (written, None) => (written, option_map Output (say_completed out))
      end
  end end end end end.

(** A console and a file system on which every step succeeds; a file
    system where the name [.passport] is taken by a regular file, so that
    [mkdir] raises; a console that cannot encode the messages. *)
Definition writable : filesystem := mk_filesystem None None None None None.

Definition talking : console := mk_console None None None None None None None.

Definition passport_is_a_file : filesystem :=
  mk_filesystem (Some (OSError "FileExistsError")) None None None None.

Definition ascii_console : console :=
  mk_console (Some UnicodeEncodeError) (Some UnicodeEncodeError)
             (Some UnicodeEncodeError) (Some UnicodeEncodeError)
             (Some UnicodeEncodeError) (Some UnicodeEncodeError)
             (Some UnicodeEncodeError).

End Report.

(** * Properties *)

Import Py Re Scan Classify.

(** ** Loops as folds *)

Section Folds.
Context {A B C : Type}.

Lemma fold_left_invariant (P : A -> Prop) (f : A -> B -> A) :
  (forall a b, P a -> P (f a b)) ->
  forall l a, P a -> P (fold_left f l a).
Proof.
  intros step l; induction l as [|b l IH]; intros a Ha; simpl; auto.
Qed.

Lemma fold_left_ext (f g : A -> B -> A) :
  (forall a b, f a b = g a b) ->
  forall l a, fold_left f l a = fold_left g l a.
Proof.
  intros E l; induction l as [|b l IH]; intros a; simpl; [reflexivity|].
  rewrite E; apply IH.
Qed.

Lemma fold_left_map (f : A -> C -> A) (h : B -> C) :
  forall l a, fold_left f (map h l) a = fold_left (fun a b => f a (h b)) l a.
Proof.
  induction l as [|b l IH]; intros a; simpl; [reflexivity|apply IH].
Qed.

Lemma fold_left_flat_map (f : A -> C -> A) (g : B -> list C) :
  forall l a,
    fold_left f (flat_map g l) a = fold_left (fun a b => fold_left f (g b) a) l a.
Proof.
  induction l as [|b l IH]; intros a; simpl; [reflexivity|].
  rewrite fold_left_app; apply IH.
Qed.
End Folds.

(** ** Texts *)

Lemma mem_In (x : string) (xs : list string) : mem x xs = true <-> In x xs.
Proof.
  unfold mem; rewrite existsb_exists; split.
  - intros [y [Hy E]]; apply String.eqb_eq in E; subst; assumption.
  - intros H; exists x; split; [assumption|apply String.eqb_refl].
Qed.

Lemma mem_not_In (x : string) (xs : list string) : mem x xs = false <-> ~ In x xs.
Proof.
  rewrite <- mem_In; destruct (mem x xs); split; congruence.
Qed.

Lemma lower_length (s : string) : String.length (lower s) = String.length s.
Proof. induction s; simpl; congruence. Qed.

Lemma lower_ascii_idem (c : ascii) : lower_ascii (lower_ascii c) = lower_ascii c.
Proof. destruct c as [[] [] [] [] [] [] [] []]; reflexivity. Qed.

Lemma lower_idem (s : string) : lower (lower s) = lower s.
Proof. induction s; simpl; [reflexivity|]. rewrite lower_ascii_idem; congruence. Qed.

Lemma isspace_lower (c : ascii) : isspace (lower_ascii c) = isspace c.
Proof. destruct c as [[] [] [] [] [] [] [] []]; reflexivity. Qed.

Lemma prefix_lower (k s : string) :
  String.prefix k s = true -> String.prefix (lower k) (lower s) = true.
Proof.
  revert s; induction k as [|a k IH]; intros s H; [destruct s; reflexivity|].
  destruct s as [|b s]; simpl in *; [discriminate|].
  destruct (Ascii.ascii_dec a b) as [->|]; [|discriminate].
  destruct (Ascii.ascii_dec (lower_ascii b) (lower_ascii b)); [auto|congruence].
Qed.

Lemma contains_lower (k s : string) :
  contains k s = true -> contains (lower k) (lower s) = true.
Proof.
  induction s as [|c s IH]; simpl; intros H.
  - destruct k; [reflexivity|discriminate].
  - apply orb_true_iff in H; apply orb_true_iff; destruct H as [H|H].
    + left; apply (prefix_lower k (String c s)); assumption.
    + right; auto.
Qed.

(** *** [strip] *)

Section Strip.
Variable p : ascii -> bool.

Lemma lstrip_by_length (s : string) :
  String.length (lstrip_by p s) <= String.length s.
Proof.
  induction s as [|c s IH]; simpl; [lia|]. destruct (p c); simpl; lia.
Qed.

Lemma lstrip_by_same_length (s : string) :
  String.length (lstrip_by p s) = String.length s -> lstrip_by p s = s.
Proof.
  destruct s as [|c s]; simpl; [reflexivity|].
  destruct (p c); [|reflexivity].
  intros H; pose proof (lstrip_by_length s); lia.
Qed.

Lemma rstrip_by_length (s : string) :
  String.length (rstrip_by p s) <= String.length s.
Proof.
  induction s as [|c s IH]; simpl; [lia|].
  destruct (rstrip_by p s); [destruct (p c)|]; simpl in *; lia.
Qed.

Lemma rstrip_by_same_length (s : string) :
  String.length (rstrip_by p s) = String.length s -> rstrip_by p s = s.
Proof.
  induction s as [|c s IH]; simpl; [reflexivity|].
  pose proof (rstrip_by_length s) as L.
  destruct (rstrip_by p s) as [|a r] eqn:E.
  - destruct (p c); simpl; intros H.
    + lia.
    + destruct s; [reflexivity|simpl in *; lia].
  - simpl; intros H. f_equal. apply IH. simpl; lia.
Qed.

Lemma lstrip_by_idem (s : string) : lstrip_by p (lstrip_by p s) = lstrip_by p s.
Proof.
  induction s as [|c s IH]; simpl; [reflexivity|].
  destruct (p c) eqn:E; [assumption|]. simpl; rewrite E; reflexivity.
Qed.

Lemma rstrip_by_idem (s : string) : rstrip_by p (rstrip_by p s) = rstrip_by p s.
Proof.
  induction s as [|c s IH]; simpl; [reflexivity|].
  destruct (rstrip_by p s) as [|a r] eqn:E.
  - destruct (p c) eqn:Ec; simpl; [reflexivity|rewrite Ec; reflexivity].
  - simpl in *. rewrite IH. reflexivity.
Qed.

Lemma rstrip_by_lstrip_by (t : string) :
  rstrip_by p t = t -> rstrip_by p (lstrip_by p t) = lstrip_by p t.
Proof.
  induction t as [|c t IH]; simpl; [reflexivity|].
  destruct (p c) eqn:Ec.
  - destruct (rstrip_by p t) as [|a r] eqn:E; [discriminate|].
    intros H; apply IH; congruence.
  - intros H; simpl; rewrite Ec; exact H.
Qed.
End Strip.

Lemma strip_idem (s : string) : strip (strip s) = strip s.
Proof.
  unfold strip.
  rewrite (rstrip_by_lstrip_by isspace (rstrip_by isspace s)) by apply rstrip_by_idem.
  apply lstrip_by_idem.
Qed.

Lemma strip_length (s : string) : String.length (strip s) <= String.length s.
Proof.
  unfold strip.
  pose proof (lstrip_by_length isspace (rstrip_by isspace s)).
  pose proof (rstrip_by_length isspace s). lia.
Qed.

Lemma strip_same_length (s : string) :
  String.length (strip s) = String.length s -> strip s = s.
Proof.
  unfold strip; intros H.
  pose proof (lstrip_by_length isspace (rstrip_by isspace s)) as L1.
  pose proof (rstrip_by_length isspace s) as L2.
  assert (E : rstrip_by isspace s = s) by (apply rstrip_by_same_length; lia).
  rewrite E in H |- *. apply lstrip_by_same_length; assumption.
Qed.

Lemma lstrip_lower (s : string) :
  lstrip_by isspace (lower s) = lower (lstrip_by isspace s).
Proof.
  induction s as [|c s IH]; simpl; [reflexivity|].
  rewrite isspace_lower. destruct (isspace c); [assumption|reflexivity].
Qed.

Lemma rstrip_lower (s : string) :
  rstrip_by isspace (lower s) = lower (rstrip_by isspace s).
Proof.
  induction s as [|c s IH]; simpl; [reflexivity|].
  rewrite IH, isspace_lower.
  destruct (rstrip_by isspace s); simpl; [destruct (isspace c)|]; reflexivity.
Qed.

Lemma strip_lower (s : string) : strip (lower s) = lower (strip s).
Proof. unfold strip. rewrite rstrip_lower, lstrip_lower. reflexivity. Qed.

(** ** The extraction loop *)

Lemma discarded_false (ref : string) :
  discarded ref = false <->
  ref <> EmptyString /\ ~ In ref GENERIC_TOKENS /\ 3 <= String.length ref.
Proof.
  unfold discarded. rewrite !orb_false_iff, mem_not_In, Nat.ltb_ge.
  split.
  - intros [[H1 H2] H3]. repeat split; try assumption.
    intros ->; discriminate.
  - intros [H1 [H2 H3]]. repeat split; try assumption.
    destruct ref; [congruence|reflexivity].
Qed.

Lemma key_inj (t1 : string) :
  forall t2 r1 r2,
    no_colon t1 = true -> no_colon t2 = true ->
    t1 ++ ":" ++ r1 = t2 ++ ":" ++ r2 -> t1 = t2 /\ r1 = r2.
Proof.
  induction t1 as [|a t1 IH]; intros [|b t2] r1 r2 N1 N2 H; simpl in *.
  - injection H as ->; auto.
  - injection H as <- _. simpl in N2. discriminate.
  - injection H as -> _. simpl in N1. discriminate.
  - injection H as -> H.
    apply andb_true_iff in N1 as [_ N1]. apply andb_true_iff in N2 as [_ N2].
    destruct (IH t2 r1 r2 N1 N2 H) as [-> ->]; auto.
Qed.

Lemma all_captures_pattern (tree : list path) (x : capture) :
  In x (all_captures tree) -> In (pattern_of x) (map fst patterns).
Proof.
  unfold all_captures. rewrite in_flat_map. intros [p [_ H]].
  unfold captures_of_path in H.
  destruct (eligible p); [|contradiction].
  destruct (content p) as [text|]; [|contradiction].
  apply in_flat_map in H as [pr [Hpr H]].
  apply in_map_iff in H as [m [<- _]].
  exact (in_map fst patterns pr Hpr).
Qed.

Lemma patterns_no_colon (t : string) :
  In t (map fst patterns) -> no_colon t = true.
Proof.
  simpl. intros [<-|[<-|[<-|[<-|[]]]]]; reflexivity.
Qed.

Section ScanFacts.
Variable clock : nat -> string.

Local Abbreviation step := (step clock).
Local Abbreviation entry_of := (entry_of clock).
Local Abbreviation run := (fold_left step).

Lemma key_entry_of (x : capture) (n : nat) : key (entry_of x n) = key_of x.
Proof. reflexivity. Qed.

Lemma made_from_entry_of (x : capture) (n : nat) : made_from (entry_of x n) x.
Proof. repeat split. Qed.

(** The loops of [scan_repository] are one loop over the captures. *)
Lemma scan_path_flat (p : path) (self : scanner) :
  scan_path clock self p = run (captures_of_path p) self.
Proof.
  unfold scan_path, captures_of_path.
  destruct (eligible p); [|reflexivity].
  destruct (content p) as [text|]; [|reflexivity].
  unfold _scan_file. rewrite fold_left_flat_map.
  apply fold_left_ext; intros a pr.
  unfold scan_pattern. rewrite fold_left_map. reflexivity.
Qed.

Lemma scan_flat (tree : list path) (self : scanner) :
  fold_left (scan_path clock) tree self = run (all_captures tree) self.
Proof.
  unfold all_captures. rewrite fold_left_flat_map.
  apply fold_left_ext; intros a p. apply scan_path_flat.
Qed.

Lemma existsb_key (ds : list entry) (k : string) :
  existsb (fun d => String.eqb (key d) k) ds = false <->
  forall d, In d ds -> key d <> k.
Proof.
  split.
  - intros H d Hd E.
    assert (existsb (fun d => String.eqb (key d) k) ds = true) as T.
    { apply existsb_exists; exists d; split; [assumption|].
      apply String.eqb_eq; assumption. }
    congruence.
  - intros H. destruct (existsb _ ds) eqn:E; [|reflexivity].
    apply existsb_exists in E as [d [Hd E]]. apply String.eqb_eq in E.
    exfalso; exact (H d Hd E).
Qed.

(** The three outcomes of one pass through the loop body. *)
Lemma step_cases (self : scanner) (x : capture) :
  (kept x = false /\ step self x = self) \/
  (kept x = true /\ (exists d, In d (datasets_found self) /\ key d = key_of x) /\
   datasets_found (step self x) = datasets_found self) \/
  (kept x = true /\ (forall d, In d (datasets_found self) -> key d <> key_of x) /\
   datasets_found (step self x)
   = (datasets_found self ++ [entry_of x (now_calls self)])%list).
Proof.
  unfold Scan.step, scan_match, kept. fold (value_of x).
  destruct (discarded (value_of x)) eqn:D; [left; auto|right].
  fold (Scan.entry_of clock x (now_calls self)). rewrite key_entry_of.
  destruct (existsb _ (datasets_found self)) eqn:E.
  - left. split; [reflexivity|]. split; [|reflexivity].
    apply existsb_exists in E as [d [Hd E]]. apply String.eqb_eq in E. eauto.
  - right. split; [reflexivity|]. split; [|reflexivity].
    apply existsb_key; assumption.
Qed.

Lemma step_grows (self : scanner) (x : capture) :
  exists l, datasets_found (step self x) = (datasets_found self ++ l)%list.
Proof.
  destruct (step_cases self x) as [[_ ->]|[[_ [_ ->]]|[_ [_ ->]]]].
  - exists []; symmetry; apply app_nil_r.
  - exists []; symmetry; apply app_nil_r.
  - eauto.
Qed.

Lemma run_grows (cs : list capture) :
  forall self, exists l,
    datasets_found (run cs self) = (datasets_found self ++ l)%list.
Proof.
  induction cs as [|x cs IH]; intros self; simpl.
  - exists []; symmetry; apply app_nil_r.
  - destruct (IH (step self x)) as [l ->].
    destruct (step_grows self x) as [l' ->].
    exists (l' ++ l)%list. symmetry; apply app_assoc.
Qed.

Lemma run_keeps (cs : list capture) (self : scanner) (d : entry) :
  In d (datasets_found self) -> In d (datasets_found (run cs self)).
Proof.
  intros H. destruct (run_grows cs self) as [l ->].
  apply in_or_app; auto.
Qed.

(** A kept capture is represented in the list from its pass on. *)
Lemma step_represents (self : scanner) (x : capture) :
  kept x = true ->
  exists d, In d (datasets_found (step self x)) /\ key d = key_of x.
Proof.
  intros K.
  destruct (step_cases self x) as [[F _]|[[_ [[d [Hd E]] ->]]|[_ [_ ->]]]].
  - congruence.
  - eauto.
  - exists (entry_of x (now_calls self)). split; [|reflexivity].
    apply in_or_app; right; left; reflexivity.
Qed.

Lemma run_represents (cs : list capture) :
  forall self x, In x cs -> kept x = true ->
    exists d, In d (datasets_found (run cs self)) /\ key d = key_of x.
Proof.
  induction cs as [|y cs IH]; intros self x Hx K; [destruct Hx|].
  destruct Hx as [->|Hx]; simpl.
  - destruct (step_represents self x K) as [d [Hd E]].
    exists d; split; [apply run_keeps|]; assumption.
  - apply IH; assumption.
Qed.

(** Every entry was appended at the pass of a kept capture whose key was
    not in the list yet. *)
Lemma run_provenance (cs : list capture) :
  forall self e, In e (datasets_found (run cs self)) ->
    In e (datasets_found self) \/
    exists pre y post,
      cs = (pre ++ y :: post)%list /\ kept y = true /\ made_from e y /\
      forall d, In d (datasets_found (run pre self)) -> key d <> key_of y.
Proof.
  induction cs as [|x cs IH]; intros self e H; simpl in H; [left; exact H|].
  destruct (IH _ _ H) as [H1|[pre [y [post [-> [K [M N]]]]]]].
  - destruct (step_cases self x) as [[_ E]|[[_ [_ E]]|[K [N E]]]];
      rewrite E in H1; auto.
    apply in_app_or in H1 as [H1|[<-|[]]]; [auto|right].
    exists [], x, cs. repeat split; assumption.
  - right. exists (x :: pre), y, post.
    split; [reflexivity|]. split; [exact K|]. split; [exact M|exact N].
Qed.

Lemma run_nodup (cs : list capture) :
  forall self, NoDup (map key (datasets_found self)) ->
               NoDup (map key (datasets_found (run cs self))).
Proof.
  intros self0 H0.
  apply (fold_left_invariant (fun s => NoDup (map key (datasets_found s))) step);
    [|exact H0].
  intros self x H.
  destruct (step_cases self x) as [[_ ->]|[[_ [_ ->]]|[_ [N ->]]]]; auto.
  rewrite map_app; simpl.
  apply NoDup_app; [assumption|constructor; [intros []|constructor]|].
  intros k Hk [<-|[]]. apply in_map_iff in Hk as [d [E Hd]].
  exact (N d Hd E).
Qed.

Lemma run_filter (cs : list capture) :
  forall self, Forall (fun d => discarded (reference d) = false) (datasets_found self) ->
    Forall (fun d => discarded (reference d) = false) (datasets_found (run cs self)).
Proof.
  intros self0 H0.
  apply (fold_left_invariant
           (fun s => Forall (fun d => discarded (reference d) = false)
                            (datasets_found s)) step); [|exact H0].
  intros self x H.
  destruct (step_cases self x) as [[_ ->]|[[_ [_ ->]]|[K [_ ->]]]]; auto.
  apply Forall_app; split; [assumption|]. constructor; [|constructor].
  simpl. unfold kept in K. apply negb_true_iff in K. exact K.
Qed.

Lemma run_unclassified (cs : list capture) :
  forall self,
    Forall (fun d => licence d = None /\ licence_source d = None /\
                     notes d = None /\ risk_flag d = None) (datasets_found self) ->
    Forall (fun d => licence d = None /\ licence_source d = None /\
                     notes d = None /\ risk_flag d = None)
           (datasets_found (run cs self)).
Proof.
  intros self0 H0.
  apply (fold_left_invariant
           (fun s => Forall (fun d => licence d = None /\ licence_source d = None /\
                                      notes d = None /\ risk_flag d = None)
                            (datasets_found s)) step); [|exact H0].
  intros self x H.
  destruct (step_cases self x) as [[_ ->]|[[_ [_ ->]]|[K [_ ->]]]]; auto.
  apply Forall_app; split; [assumption|]. constructor; [|constructor].
  simpl; auto.
Qed.

End ScanFacts.

(** ** First occurrences *)

Lemma key_of_identity (x z : capture) :
  identity_of z = identity_of x -> key_of z = key_of x.
Proof. unfold identity_of, key_of. intros H; injection H as -> ->; reflexivity. Qed.

Lemma identity_of_key (x z : capture) :
  no_colon (pattern_of z) = true -> no_colon (pattern_of x) = true ->
  key_of z = key_of x -> identity_of z = identity_of x.
Proof.
  unfold identity_of, key_of. intros Nz Nx H.
  destruct (key_inj _ _ _ _ Nz Nx H) as [-> ->]; reflexivity.
Qed.

Lemma made_from_key (d : entry) (x : capture) : made_from d x -> key d = key_of x.
Proof. unfold made_from, key, key_of. intros [-> [-> _]]; reflexivity. Qed.

Lemma identity_dec (x z : capture) :
  {kept z = true /\ identity_of z = identity_of x} +
  {~ (kept z = true /\ identity_of z = identity_of x)}.
Proof.
  destruct (kept z); [|right; intros [H _]; discriminate].
  destruct (identity_of z) as [a b], (identity_of x) as [c d].
  destruct (string_dec a c) as [->|N]; [|right; intros [_ H]; congruence].
  destruct (string_dec b d) as [->|N]; [|right; intros [_ H]; congruence].
  left; auto.
Qed.

Lemma earlier_or_none (cs : list capture) (x : capture) (n : nat) :
  (exists i z, i < n /\ nth_error cs i = Some z /\
               kept z = true /\ identity_of z = identity_of x) \/
  (forall i z, i < n -> nth_error cs i = Some z -> kept z = true ->
               identity_of z <> identity_of x).
Proof.
  induction n as [|n [[i [z [Hi H]]]|IH]].
  - right; intros i z Hi; lia.
  - left; exists i, z; split; [lia|exact H].
  - destruct (nth_error cs n) as [z|] eqn:E.
    + destruct (identity_dec x z) as [[K I]|N].
      * left; exists n, z; auto.
      * right; intros i z' Hi Hz K I.
        destruct (Nat.eq_dec i n) as [->|Hn].
        -- rewrite E in Hz; injection Hz as ->; auto.
        -- apply (IH i z'); try assumption; lia.
    + right; intros i z' Hi Hz K I.
      destruct (Nat.eq_dec i n) as [->|Hn]; [congruence|].
      apply (IH i z'); try assumption; lia.
Qed.

Lemma exists_first (cs : list capture) (i : nat) :
  forall x, nth_error cs i = Some x -> kept x = true ->
    exists j y, j <= i /\ first_at cs j y /\ identity_of y = identity_of x.
Proof.
  induction i as [i IH] using lt_wf_ind; intros x Hx K.
  destruct (earlier_or_none cs x i) as [[i' [z [Hi [Hz [Kz Iz]]]]]|N].
  - destruct (IH i' Hi z Hz Kz) as [j [y [Hj [F I]]]].
    exists j, y; split; [lia|]; split; [exact F|congruence].
  - exists i, x; split; [lia|]; split; [|reflexivity].
    split; [exact Hx|]; split; [exact K|exact N].
Qed.

Section FirstOccurrence.
Variable clock : nat -> string.

Local Abbreviation run := (fold_left (step clock)).
Local Abbreviation fresh := (mk_scanner [] 0).

(** The entry of a first occurrence is in the list at the end. *)
Lemma first_kept (cs : list capture) (j : nat) (y : capture) :
  (forall x, In x cs -> no_colon (pattern_of x) = true) ->
  first_at cs j y ->
  exists e, In e (datasets_found (run cs fresh)) /\ made_from e y.
Proof.
  intros NC [Hj [K F]].
  destruct (nth_error_split cs j Hj) as [pre [post [-> L]]].
  rewrite fold_left_app; simpl.
  destruct (step_cases clock (run pre fresh) y)
    as [[K' _]|[[_ [[d [Hd E]] _]]|[_ [_ E]]]].
  - congruence.
  - exfalso.
    destruct (run_provenance clock pre fresh d Hd)
      as [[]|[pre' [z [post' [-> [Kz [Mz _]]]]]]].
    apply (F (List.length pre') z).
    + rewrite <- L, length_app; simpl; lia.
    + rewrite <- app_assoc; simpl. rewrite nth_error_app2 by lia.
      rewrite Nat.sub_diag; reflexivity.
    + exact Kz.
    + apply identity_of_key.
      * apply NC. apply in_or_app; left. apply in_or_app; right; left; reflexivity.
      * apply NC. apply in_or_app; right; left; reflexivity.
      * rewrite <- (made_from_key d z Mz); exact E.
  - exists (entry_of clock y (now_calls (run pre fresh))).
    split; [|apply made_from_entry_of].
    apply run_keeps. rewrite E. apply in_or_app; right; left; reflexivity.
Qed.

(** Every entry of the list at the end records a first occurrence. *)
Lemma entry_first (cs : list capture) (e : entry) :
  In e (datasets_found (run cs fresh)) ->
  exists j y, first_at cs j y /\ made_from e y.
Proof.
  intros H.
  destruct (run_provenance clock cs fresh e H)
    as [[]|[pre [y [post [-> [K [M N]]]]]]].
  exists (List.length pre), y; split; [|exact M].
  split; [|split; [exact K|]].
  - rewrite nth_error_app2 by lia. rewrite Nat.sub_diag; reflexivity.
  - intros i z Hi Hz Kz I.
    rewrite nth_error_app1 in Hz by exact Hi.
    apply nth_error_In in Hz.
    destruct (run_represents clock pre fresh z Hz Kz) as [d [Hd E]].
    apply (N d Hd). rewrite E. apply key_of_identity; exact I.
Qed.

Lemma scan_repository_run (tree : list path) :
  scan_repository clock tree = datasets_found (run (all_captures tree) fresh).
Proof. unfold scan_repository. rewrite scan_flat. reflexivity. Qed.

Lemma all_captures_no_colon (tree : list path) (x : capture) :
  In x (all_captures tree) -> no_colon (pattern_of x) = true.
Proof.
  intros H. apply patterns_no_colon. apply (all_captures_pattern tree); exact H.
Qed.

End FirstOccurrence.

(** ** Matches *)

Lemma findall_from_shape (r : regex) (s : string) :
  forall skip m, In m (findall_from r skip s) ->
    exists s0 rest caps, m = found_of r s0 rest caps.
Proof.
  induction s as [|c s IH]; intros skip m H; simpl in H.
  - destruct skip; [|contradiction].
    destruct (match_here r EmptyString) as [[rest caps]|]; [|contradiction].
    destruct H as [<-|[]]. eauto.
  - destruct skip as [|n]; [|eauto].
    destruct (match_here r (String c s)) as [[rest caps]|]; [|eauto].
    destruct H as [<-|H]; eauto.
Qed.

(** ** The filter *)

(** C7.  Every reference of the final list has a value that is not empty,
    has at least 3 characters and is not a generic token; a candidate that
    fails one of the three conditions leaves the scanner as it was. *)
Theorem denylist_invariant (clock : nat -> string) (tree : list path) :
  Forall (fun d => reference d <> EmptyString /\
                   3 <= String.length (reference d) /\
                   ~ In (reference d) GENERIC_TOKENS)
         (scan_repository clock tree) /\
  forall relative_path pattern_type self m,
    normalise pattern_type m = EmptyString \/
    String.length (normalise pattern_type m) < 3 \/
    In (normalise pattern_type m) GENERIC_TOKENS ->
    scan_match clock relative_path pattern_type self m = self.
Proof.
  split.
  - rewrite scan_repository_run.
    assert (Forall (fun d => discarded (reference d) = false)
                   (datasets_found (fold_left (step clock) (all_captures tree)
                                              (mk_scanner [] 0)))) as H
        by (apply run_filter; constructor).
    eapply Forall_impl; [|exact H].
    intros d Hd. apply discarded_false in Hd. tauto.
  - intros rel pt self m H. unfold scan_match.
    destruct (discarded (normalise pt m)) eqn:D; [reflexivity|].
    apply discarded_false in D. destruct D as [D1 [D2 D3]].
    destruct H as [H|[H|H]]; [congruence|lia|contradiction].
Qed.

Lemma denylist_invariant_witness :
  Forall (fun d => reference d <> EmptyString /\
                   3 <= String.length (reference d) /\
                   ~ In (reference d) GENERIC_TOKENS)
         (scan_repository Scenario.noon [Scenario.a_file Scenario.csv_text]) /\
  scan_match Scenario.noon "train.py" "dataset_urls" (mk_scanner [] 0) (FStr ".csv")
  = mk_scanner [] 0.
Proof.
  destruct (denylist_invariant Scenario.noon [Scenario.a_file Scenario.csv_text])
    as [H1 H2].
  split; [exact H1|]. apply H2. right; right. simpl; auto.
Defined.

(** ** Normalisation *)

(** C6.  Under the hosted-dataset-URL pattern every match is a pair of
    groups, the protocol and the dataset path, and the value is the
    trimmed path alone; under any other pattern a tuple of groups is
    joined and trimmed; the value is already trimmed when it is filtered,
    and a new entry carries exactly that value. *)
Theorem normalisation_of_groups (clock : nat -> string) :
  (forall text m,
      In m (findall re_huggingface_datasets text) ->
      exists caps,
        m = FTuple [group_text caps 1; group_text caps 2] /\
        normalise "huggingface_datasets" m = strip (group_text caps 2)) /\
  (forall pattern_type gs,
      pattern_type <> "huggingface_datasets" ->
      normalise pattern_type (FTuple gs) = strip (join EmptyString gs)) /\
  (forall pattern_type m,
      strip (normalise pattern_type m) = normalise pattern_type m) /\
  (forall relative_path pattern_type self m e,
      In e (datasets_found (scan_match clock relative_path pattern_type self m)) ->
      In e (datasets_found self) \/
      (reference e = normalise pattern_type m /\
       discarded (normalise pattern_type m) = false)) /\
  map (normalise "huggingface_datasets")
      (findall re_huggingface_datasets Scenario.card_text) = ["org/name"].
Proof.
  repeat split.
  - intros text m H.
    destruct (findall_from_shape _ _ _ _ H) as [s0 [rest [caps ->]]].
    exists caps. split; reflexivity.
  - intros pt gs N. unfold normalise.
    destruct (String.eqb pt "huggingface_datasets") eqn:E; [|reflexivity].
    apply String.eqb_eq in E; contradiction.
  - intros pt m. unfold normalise. apply strip_idem.
  - intros rel pt self m e H. unfold scan_match in H.
    destruct (discarded (normalise pt m)) eqn:D; [left; exact H|].
    destruct (existsb _ (datasets_found self)); simpl in H; [left; exact H|].
    apply in_app_or in H as [H|[<-|[]]]; [left; exact H|right].
    split; reflexivity.
Qed.

Lemma normalisation_of_groups_witness :
  normalise "dataset_urls" (FTuple ["a"; " b.csv "]) = "a b.csv" /\
  normalise "huggingface_datasets" (FTuple ["https://"; "org/name "]) = "org/name".
Proof.
  destruct (normalisation_of_groups Scenario.noon) as [_ [H _]].
  split; [|reflexivity].
  rewrite (H "dataset_urls" ["a"; " b.csv "]); [reflexivity|discriminate].
Defined.

(** ** Letter case *)

Lemma generic_token_facts (tok : string) :
  In tok GENERIC_TOKENS ->
  lower tok = tok /\ strip tok = tok /\ 3 <= String.length tok.
Proof.
  simpl. intros [<-|[<-|[<-|[<-|[<-|[<-|[]]]]]]]; repeat split; simpl; lia.
Qed.

(** A text that lower-cases to a generic token without being one passes
    the filter unchanged. *)
Lemma case_variant_kept (v tok : string) :
  In tok GENERIC_TOKENS -> lower v = tok -> v <> tok ->
  strip v = v /\ discarded v = false.
Proof.
  intros T L N.
  destruct (generic_token_facts tok T) as [Lt [St Len]].
  assert (String.length v = String.length tok) as Lv
      by (rewrite <- L; symmetry; apply lower_length).
  split.
  - apply strip_same_length.
    rewrite <- (lower_length (strip v)), <- strip_lower, L, St. congruence.
  - apply discarded_false. split; [|split].
    + intros ->. simpl in Lv. lia.
    + intros T'. destruct (generic_token_facts v T') as [Lv' _]. congruence.
    + lia.
Qed.

(** C10, as the code has it.  Take any match, under any of the four
    patterns, whose value differs from a generic token by letter case
    only, be it the value after normalisation or the captured text itself.
    Its normalised value is that text, it passes the filter, and the
    final list holds a reference of its pattern whose lower-cased value is
    that token: the value itself, with its file, unless an earlier kept
    match of the same pattern has the same lower-cased value. *)
Theorem case_variant_of_token (clock : nat -> string) (tree : list path)
        (i : nat) (x : capture) (v tok : string) :
  nth_error (all_captures tree) i = Some x ->
  value_of x = v \/ snd x = FStr v ->
  In tok GENERIC_TOKENS -> lower v = tok -> v <> tok ->
  value_of x = v /\ kept x = true /\
  exists e,
    In e (scan_repository clock tree) /\
    type e = pattern_of x /\ lower (reference e) = tok /\
    ((forall j z, j < i -> nth_error (all_captures tree) j = Some z ->
                  kept z = true -> identity_of z <> identity_of x) ->
     reference e = v /\ file e = origin_of x).
Proof.
  intros Hx Hm T L N.
  destruct (case_variant_kept v tok T L N) as [S D].
  assert (value_of x = v) as V.
  { destruct Hm as [Hm|Hm]; [exact Hm|].
    unfold value_of, normalise; rewrite Hm; exact S. }
  assert (kept x = true) as K by (unfold kept; rewrite V, D; reflexivity).
  split; [exact V|]. split; [exact K|].
  destruct (exists_first _ _ _ Hx K) as [j [y [Hj [F I]]]].
  destruct (first_kept clock _ _ _ (all_captures_no_colon tree) F) as [e [He M]].
  exists e. rewrite scan_repository_run. split; [exact He|].
  destruct M as [Mt [Mr Mf]]. unfold identity_of in I. injection I as I1 I2.
  split; [congruence|]. split; [rewrite Mr, I2, V; exact L|].
  intros First.
  assert (j = i) as ->.
  { destruct (Nat.eq_dec j i) as [E|E]; [exact E|exfalso].
    destruct F as [Fj [Fk _]].
    apply (First j y); [lia|exact Fj|exact Fk|].
    unfold identity_of; congruence. }
  destruct F as [Fj _]. rewrite Hx in Fj. injection Fj as <-.
  split; congruence.
Qed.

Lemma case_variant_of_token_witness :
  (exists e,
      In e (scan_repository Scenario.noon
              [Scenario.a_file "see huggingface.co/datasets/NAME"]) /\
      type e = "huggingface_datasets" /\ reference e = "NAME" /\
      file e = "train.py") /\
  (exists e,
      In e (scan_repository Scenario.noon
              [Scenario.a_file Scenario.upper_csv_text]) /\
      type e = "dataset_urls" /\ reference e = ".CSV" /\ file e = "train.py").
Proof.
  split.
  - destruct (case_variant_of_token
                Scenario.noon [Scenario.a_file "see huggingface.co/datasets/NAME"] 0
                ("huggingface_datasets", "train.py", FTuple [EmptyString; "NAME"])
                "NAME" "name")
      as [_ [_ [e [He [Ht [_ Hf]]]]]].
    + reflexivity.
    + left; reflexivity.
    + simpl; auto.
    + reflexivity.
    + discriminate.
    + exists e. split; [exact He|]. split; [exact Ht|].
      apply Hf. intros j z Hj. lia.
  - destruct (case_variant_of_token
                Scenario.noon [Scenario.a_file Scenario.upper_csv_text] 0
                ("dataset_urls", "train.py", FStr ".CSV") ".CSV" ".csv")
      as [_ [_ [e [He [Ht [_ Hf]]]]]].
    + reflexivity.
    + right; reflexivity.
    + simpl; auto.
    + reflexivity.
    + discriminate.
    + exists e. split; [exact He|]. split; [exact Ht|].
      apply Hf. intros j z Hj. lia.
Defined.

(** C10, as stated, fails: in a file that calls the loader on NAME and
    then on Name, the second captured text differs from the token by case
    only and passes the filter, yet no reference of the final list has
    it as value. *)
Lemma case_variant_dropped_by_dedup :
  let tree := [Scenario.a_file Scenario.two_cases_text] in
  let x := ("huggingface_load_dataset", "train.py", FStr "Name") in
  nth_error (all_captures tree) 1 = Some x /\
  In (lower "Name") GENERIC_TOKENS /\ 3 <= String.length "Name" /\
  ~ In "Name" GENERIC_TOKENS /\ kept x = true /\
  ~ exists e, In e (scan_repository Scenario.noon tree) /\ reference e = "Name".
Proof.
  cbv zeta. split; [reflexivity|]. split; [simpl; auto|]. split; [simpl; lia|].
  split; [apply mem_not_In; reflexivity|]. split; [reflexivity|].
  intros [e [He Hr]]. vm_compute in He.
  destruct He as [<-|[]]. discriminate.
Qed.

(** ** The enrichment loop *)

Section EnrichFacts.
Variable urlparse_netloc : string -> result string.
Variable str_of : json -> string.
Variable net : nat -> string -> response.

Local Abbreviation classify := (_classify_reference urlparse_netloc str_of).
Local Abbreviation enrich_from := (enrich_from urlparse_netloc str_of net).

(** The loop neither drops an entry nor touches the keys written by the
    scan, whether it ends normally or by an exception. *)
Lemma enrich_from_frame (ds : list entry) :
  forall i,
    map (fun d => (type d, reference d, file d, found_at d)) (fst (enrich_from i ds))
    = map (fun d => (type d, reference d, file d, found_at d)) ds.
Proof.
  induction ds as [|d ds IH]; intros i; simpl; [reflexivity|].
  destruct (classify (net i) d) as [[[[l s] n] r]|e]; [|reflexivity].
  specialize (IH (S i)). destruct (enrich_from (S i) ds) as [rest' ex].
  simpl in *. rewrite IH. reflexivity.
Qed.

Lemma enrich_from_ident (ds : list entry) (i : nat) :
  map ident (fst (enrich_from i ds)) = map ident ds.
Proof.
  pose proof (enrich_from_frame ds i) as H.
  apply (f_equal (map (fun q : string * string * string * string =>
                         (fst (fst (fst q)), lower (snd (fst (fst q))))))) in H.
  rewrite !map_map in H. exact H.
Qed.

(** An entry of the list the loop leaves is an entry it has not reached,
    or a classified one. *)
Lemma enrich_from_entries (ds : list entry) :
  forall i e, In e (fst (enrich_from i ds)) ->
    In e ds \/
    exists d n c, In d ds /\ classify (net n) d = Return c /\
                  e = set_classification d c.
Proof.
  induction ds as [|d ds IH]; intros i e H; simpl in H; [contradiction|].
  destruct (classify (net i) d) as [c|ex] eqn:E; [|left; exact H].
  specialize (IH (S i) e). destruct (enrich_from (S i) ds) as [rest' ex].
  simpl in *. destruct H as [<-|H].
  - right. exists d, i, c. auto.
  - destruct (IH H) as [H'|[d' [n [c' [Hd [Hc He]]]]]]; [left; auto|right].
    exists d', n, c'. auto.
Qed.

(** When the loop ends normally every entry has its four new keys, taken
    from its own classification. *)
Lemma enrich_from_complete (ds : list entry) :
  forall i, snd (enrich_from i ds) = None ->
    forall k d, nth_error ds k = Some d ->
      exists c, classify (net (i + k)) d = Return c /\
                nth_error (fst (enrich_from i ds)) k = Some (set_classification d c).
Proof.
  induction ds as [|d0 ds IH]; intros i H k d Hk; [destruct k; discriminate|].
  simpl in *.
  destruct (classify (net i) d0) as [c|ex] eqn:E; [|discriminate].
  specialize (IH (S i)). destruct (enrich_from (S i) ds) as [rest' ex].
  simpl in *. destruct k as [|k]; simpl in *.
  - injection Hk as <-. exists c. rewrite Nat.add_0_r. auto.
  - destruct (IH H k d Hk) as [c' [Hc Hn]].
    exists c'. rewrite Nat.add_succ_r. auto.
Qed.

End EnrichFacts.

(** ** Deduplication *)

(** C2.  In the final list, and in the list after enrichment, no two
    references have the same pattern and lower-cased value.  Whenever a
    capture is kept by the filter, the first kept capture with its
    pattern and lower-cased value has an entry in the final list, with
    the value and the file of that first capture; and every entry of the
    final list records such a first capture. *)
Theorem dedup_first_occurrence_wins
        (clock : nat -> string) (urlparse_netloc : string -> result string)
        (str_of : json -> string) (net : nat -> string -> response)
        (tree : list path) :
  let final := scan_repository clock tree in
  let enriched := fst (enrich_with_licences urlparse_netloc str_of net final) in
  NoDup (map ident final) /\
  NoDup (map ident enriched) /\
  (forall i x,
      nth_error (all_captures tree) i = Some x -> kept x = true ->
      exists j y e,
        j <= i /\ first_at (all_captures tree) j y /\
        identity_of y = identity_of x /\
        In e final /\ made_from e y) /\
  (forall e, In e final ->
             exists j y, first_at (all_captures tree) j y /\ made_from e y).
Proof.
  cbv zeta.
  assert (NoDup (map ident (scan_repository clock tree))) as ND.
  { rewrite scan_repository_run.
    apply (NoDup_map_inv (fun q : string * string => fst q ++ ":" ++ snd q)).
    rewrite map_map. apply run_nodup. constructor. }
  split; [exact ND|]. split.
  - unfold enrich_with_licences. rewrite enrich_from_ident. exact ND.
  - split.
    + intros i x Hx K.
      destruct (exists_first _ _ _ Hx K) as [j [y [Hj [F I]]]].
      destruct (first_kept clock _ _ _ (all_captures_no_colon tree) F) as [e [He M]].
      exists j, y, e. rewrite scan_repository_run. auto.
    + intros e He. rewrite scan_repository_run in He.
      apply (entry_first clock); exact He.
Qed.

Lemma dedup_first_occurrence_wins_witness :
  let tree := [Scenario.second_file Scenario.card_text;
               Scenario.a_file Scenario.card_text] in
  exists j y e,
    j <= 1 /\ first_at (all_captures tree) j y /\
    identity_of y
    = identity_of ("huggingface_datasets", "train.py", FTuple ["https://"; "org/name"]) /\
    In e (scan_repository Scenario.noon tree) /\ made_from e y.
Proof.
  cbv zeta.
  apply (proj1 (proj2 (proj2
           (dedup_first_occurrence_wins
              Scenario.noon urlsplit_netloc Scenario.some_str
              (fun _ => Scenario.unreachable)
              [Scenario.second_file Scenario.card_text;
               Scenario.a_file Scenario.card_text])))).
  - vm_compute; reflexivity.
  - vm_compute; reflexivity.
Defined.

(** The two files of the sample above give one reference, found in the
    first of them. *)
Example card_in_two_files :
  map (fun d => (type d, reference d, file d))
      (scan_repository Scenario.noon
         [Scenario.second_file Scenario.card_text; Scenario.a_file Scenario.card_text])
  = [("huggingface_datasets", "org/name", "docs/notes.md")].
Proof. vm_compute; reflexivity. Qed.

(** ** Risk from the licence text *)

Lemma markers_low (lic k : string) :
  In k markers -> contains k (lower lic) = true -> _risk_from_licence lic = "low".
Proof.
  intros Hk Hc. unfold _risk_from_licence.
  destruct (existsb (fun k0 => contains k0 (lower lic)) permissive) eqn:E;
    [reflexivity|].
  apply in_app_or in Hk as [Hk|Hk].
  - assert (existsb (fun k0 => contains k0 (lower lic)) permissive = true) as T
        by (apply existsb_exists; exists k; auto).
    congruence.
  - destruct Hk as [<-|[<-|[]]]; rewrite Hc; [reflexivity|].
    rewrite orb_true_r; reflexivity.
Qed.

Lemma low_has_marker (lic : string) :
  _risk_from_licence lic = "low" ->
  exists k, In k markers /\ contains k (lower lic) = true.
Proof.
  unfold _risk_from_licence.
  destruct (existsb (fun k0 => contains k0 (lower lic)) permissive) eqn:E.
  - intros _. apply existsb_exists in E as [k [Hk Hc]].
    exists k; split; [apply in_or_app; left|]; assumption.
  - destruct (contains "cc-by" (lower lic)) eqn:E1.
    + intros _. exists "cc-by". split; [|exact E1].
      apply in_or_app; right; left; reflexivity.
    + destruct (contains "cc by" (lower lic)) eqn:E2.
      * intros _. exists "cc by". split; [|exact E2].
        apply in_or_app; right; right; left; reflexivity.
      * cbn [orb].
        destruct (mem (lower lic) ["unknown"; EmptyString; "none"; "other"]);
          discriminate.
Qed.

Lemma markers_lower (k : string) : In k markers -> lower k = k.
Proof.
  simpl. intros [<-|[<-|[<-|[<-|[<-|[<-|[<-|[<-|[<-|[]]]]]]]]]]; reflexivity.
Qed.

(** C9.  The risk is low exactly when some marker is a substring of the
    lower-cased licence text, wherever it stands; the word Limited holds
    the marker mit and is therefore low. *)
Theorem risk_by_substring :
  (forall lic,
      _risk_from_licence lic = "low" <->
      exists k, In k markers /\ contains k (lower lic) = true) /\
  (forall lic, _risk_from_licence lic = "low" \/ _risk_from_licence lic = "review") /\
  markers = ["cc0"; "public domain"; "open government"; "odc"; "apache"; "mit";
             "bsd"; "cc-by"; "cc by"] /\
  contains "mit" (lower "Limited") = true /\
  _risk_from_licence "Limited" = "low".
Proof.
  split; [|split; [|repeat split]].
  - intros lic; split; [apply low_has_marker|].
    intros [k [Hk Hc]]; exact (markers_low lic k Hk Hc).
  - intros lic. unfold _risk_from_licence.
    destruct (existsb _ permissive); [left; reflexivity|].
    destruct (_ || _); [left; reflexivity|].
    destruct (mem _ _); right; reflexivity.
Qed.

(** ** Classification *)

Section ClassifyFacts.
Variable urlparse_netloc : string -> result string.
Variable str_of : json -> string.

Local Abbreviation classify := (_classify_reference urlparse_netloc str_of).

(** The branch taken for a hosted reference with a non-empty value. *)
Lemma classify_hosted (net : string -> response) (d : entry) :
  hosted d -> reference d <> EmptyString ->
  classify net d =
  match _fetch_hf_license str_of net (normalise_id (reference d)) with
  | Some (String l lic) =>
      Return (String l lic, "huggingface_api",
              "License read from HF card for '" ++ normalise_id (reference d) ++ "'",
              _risk_from_licence (String l lic))
  | _ =>
      Return ("Unknown", "heuristic",
              "No license field found for '" ++ normalise_id (reference d) ++ "'",
              "review")
  end.
Proof.
  intros H N. unfold _classify_reference.
  destruct (reference d) as [|c rest] eqn:R; [congruence|].
  destruct H as [-> | ->]; reflexivity.
Qed.

(** What every classification that returns looks like. *)
Lemma classify_returns (net : string -> response) (d : entry)
      (lic source notes risk : string) :
  classify net d = Return (lic, source, notes, risk) ->
  (source = "huggingface_api" /\ risk = _risk_from_licence lic) \/
  (source = "heuristic" /\ lic = "Unknown" /\ risk = "review") \/
  (source = "heuristic" /\ lic = "Open Government" /\ risk = "low") \/
  (source = "heuristic" /\ lic = "Varies (Kaggle)" /\ risk = "review") \/
  (source = "heuristic" /\ lic = "Proprietary/Project-internal" /\ risk = "review").
Proof.
  unfold _classify_reference, bind.
  repeat match goal with
         | |- context [match ?x with _ => _ end] => destruct x
         end;
    intros H; try discriminate; injection H as <- <- <- <-; tauto.
Qed.

End ClassifyFacts.

(** C3.  A classification whose source is the heuristic tag and whose
    licence is Unknown has risk review, for a single reference and for
    every entry of the enriched list of a scan; and a licence text that
    contains a permissive marker, in any letter case, has risk low. *)
Theorem risk_monotonicity
        (urlparse_netloc : string -> result string) (str_of : json -> string) :
  (forall net d lic source notes risk,
      _classify_reference urlparse_netloc str_of net d
      = Return (lic, source, notes, risk) ->
      source = "heuristic" -> lic = "Unknown" -> risk = "review") /\
  (forall clock net tree e,
      In e (fst (enrich_with_licences urlparse_netloc str_of net
                   (scan_repository clock tree))) ->
      licence_source e = Some "heuristic" -> licence e = Some "Unknown" ->
      risk_flag e = Some "review") /\
  (forall lic k, In k markers -> contains k (lower lic) = true ->
                 _risk_from_licence lic = "low") /\
  (forall lic k, In k markers -> contains k lic = true ->
                 _risk_from_licence lic = "low").
Proof.
  assert (forall net d lic source notes risk,
             _classify_reference urlparse_netloc str_of net d
             = Return (lic, source, notes, risk) ->
             source = "heuristic" -> lic = "Unknown" -> risk = "review") as One.
  { intros net d lic source notes risk H Hs Hl.
    destruct (classify_returns _ _ _ _ _ _ _ _ H)
      as [[E _]|[[_ [_ E]]|[[_ [E _]]|[[_ [E _]]|[_ [E _]]]]]];
      subst; try discriminate; reflexivity. }
  split; [exact One|]. split; [|split].
  - intros clock net tree e He Hs Hl.
    destruct (enrich_from_entries _ _ _ _ _ _ He) as [Hin|[d [n [c [_ [Hc ->]]]]]].
    + rewrite scan_repository_run in Hin.
      assert (Forall (fun d => licence d = None /\ licence_source d = None /\
                               notes d = None /\ risk_flag d = None)
                     (datasets_found (fold_left (step clock) (all_captures tree)
                                                (mk_scanner [] 0)))) as U
          by (apply run_unclassified; constructor).
      rewrite Forall_forall in U. destruct (U e Hin) as [_ [U2 _]]. congruence.
    + destruct c as [[[l s] nt] r]. simpl in *.
      injection Hs as ->. injection Hl as ->.
      rewrite (One _ _ _ _ _ _ Hc); reflexivity.
  - exact markers_low.
  - intros lic k Hk Hc. apply (markers_low lic k Hk).
    rewrite <- (markers_lower k Hk). apply contains_lower; exact Hc.
Qed.

Lemma risk_monotonicity_witness :
  let d := mk_entry "huggingface_load_dataset" "squad" "train.py" "noon"
                    None None None None in
  exists lic source notes risk,
    _classify_reference urlsplit_netloc Scenario.some_str Scenario.unreachable d
    = Return (lic, source, notes, risk) /\
    source = "heuristic" /\ lic = "Unknown" /\ risk = "review" /\
    _risk_from_licence "The MIT License" = "low".
Proof.
  cbv zeta.
  exists "Unknown", "heuristic", "No license field found for 'squad'", "review".
  split; [reflexivity|]. split; [reflexivity|]. split; [reflexivity|]. split.
  - exact (proj1 (risk_monotonicity urlsplit_netloc Scenario.some_str)
             Scenario.unreachable
             (mk_entry "huggingface_load_dataset" "squad" "train.py" "noon"
                       None None None None)
             "Unknown" "heuristic" "No license field found for 'squad'" "review"
             eq_refl eq_refl eq_refl).
  - apply (proj1 (proj2 (proj2 (risk_monotonicity urlsplit_netloc Scenario.some_str)))
             "The MIT License" "mit"); [simpl; tauto|reflexivity].
Defined.

(** ** The remote lookup *)

Section LookupFacts.
Variable str_of : json -> string.

Lemma absent_or_empty_falsy (pairs : list (string * json)) (k : string) :
  absent_or_empty (lookup k pairs) ->
  exists v, get (JObj pairs) k = Return v /\ truthy v = false.
Proof.
  unfold get. intros [H|[H|[H|[H|H]]]]; rewrite H; eauto.
Qed.

Lemma no_licence_field_none (data : json) :
  no_licence_field data -> licence_of_card str_of data = Return None.
Proof.
  intros [pairs [-> [H|[card [Hc [Hl Hls]]]]]]; unfold licence_of_card.
  - destruct (absent_or_empty_falsy pairs "cardData" H) as [v [-> F]].
    cbn [bind]. rewrite F. reflexivity.
  - unfold get at 1. rewrite Hc. simpl.
    destruct (absent_or_empty_falsy card "license" Hl) as [v [Hv F]].
    destruct (absent_or_empty_falsy card "licenses" Hls) as [w [Hw G]].
    destruct card as [|pr card].
    + simpl. reflexivity.
    + cbn [truthy]. rewrite Hv. cbn [bind]. rewrite F, Hw. cbn [bind].
      destruct w as [| | | | | | |[|first items]|]; try discriminate;
        cbn [bind]; rewrite F; reflexivity.
Qed.

Lemma lookup_fails_none (net : string -> response) (hf_id : string) :
  lookup_fails (net (api_url hf_id)) -> _fetch_hf_license str_of net hf_id = None.
Proof.
  unfold _fetch_hf_license, lookup_fails, request.
  destruct (net (api_url hf_id)) as [e|[data|]]; try reflexivity.
  intros H. rewrite (no_licence_field_none data H). reflexivity.
Qed.

Lemma licence_text_found (net : string -> response) (hf_id : string)
      (pairs card : list (string * json)) (lic : string) :
  net (api_url hf_id) = Body (Some (JObj pairs)) ->
  lookup "cardData" pairs = Some (JObj card) ->
  lookup "license" card = Some (JStr lic) ->
  lic <> EmptyString ->
  _fetch_hf_license str_of net hf_id = Some lic.
Proof.
  intros Hn Hc Hl N. unfold _fetch_hf_license, request. rewrite Hn.
  unfold licence_of_card. unfold get at 1. rewrite Hc. cbn [bind].
  destruct card as [|pr card]; [discriminate|]. cbn [truthy].
  unfold get. rewrite Hl. cbn [bind truthy].
  destruct lic; [congruence|]. reflexivity.
Qed.

End LookupFacts.

(** C4.  For a hosted-dataset reference, a lookup that fails (the request
    raises, the body is not JSON, the body has no licence field, or the
    licence cannot be read for any other reason) never makes the
    classification raise: it returns licence Unknown, the heuristic tag
    and risk review. *)
Theorem lookup_failure_recovered
        (urlparse_netloc : string -> result string) (str_of : json -> string)
        (net : string -> response) (d : entry) :
  hosted d -> reference d <> EmptyString ->
  lookup_fails (net (api_url (normalise_id (reference d)))) \/
  _fetch_hf_license str_of net (normalise_id (reference d)) = None ->
  _classify_reference urlparse_netloc str_of net d
  = Return ("Unknown", "heuristic",
            "No license field found for '" ++ normalise_id (reference d) ++ "'",
            "review").
Proof.
  intros H N F.
  assert (_fetch_hf_license str_of net (normalise_id (reference d)) = None) as E
      by (destruct F as [F|F]; [apply lookup_fails_none|]; exact F).
  rewrite (classify_hosted urlparse_netloc str_of net d H N), E. reflexivity.
Qed.

Lemma lookup_failure_recovered_witness :
  let d := mk_entry "huggingface_datasets" "org/name" "train.py" "noon"
                    None None None None in
  _classify_reference urlsplit_netloc Scenario.some_str
                      (fun _ => Fails TimeoutError) d
  = Return ("Unknown", "heuristic", "No license field found for 'org/name'", "review") /\
  _classify_reference urlsplit_netloc Scenario.some_str
                      (fun _ => Fails (HTTPError 404)) d
  = Return ("Unknown", "heuristic", "No license field found for 'org/name'", "review") /\
  _classify_reference urlsplit_netloc Scenario.some_str
                      (fun _ => Body None) d
  = Return ("Unknown", "heuristic", "No license field found for 'org/name'", "review") /\
  _classify_reference urlsplit_netloc Scenario.some_str
                      (fun _ => Body (Some (JObj [("id", JStr "org/name")]))) d
  = Return ("Unknown", "heuristic", "No license field found for 'org/name'", "review").
Proof.
  cbv zeta. split; [|split; [|split]].
  - apply (lookup_failure_recovered urlsplit_netloc Scenario.some_str
             (fun _ => Fails TimeoutError)
             (mk_entry "huggingface_datasets" "org/name" "train.py" "noon"
                       None None None None)).
    + left; reflexivity.
    + discriminate.
    + left; exact I.
  - apply (lookup_failure_recovered urlsplit_netloc Scenario.some_str
             (fun _ => Fails (HTTPError 404))
             (mk_entry "huggingface_datasets" "org/name" "train.py" "noon"
                       None None None None)).
    + left; reflexivity.
    + discriminate.
    + left; exact I.
  - apply (lookup_failure_recovered urlsplit_netloc Scenario.some_str
             (fun _ => Body None)
             (mk_entry "huggingface_datasets" "org/name" "train.py" "noon"
                       None None None None)).
    + left; reflexivity.
    + discriminate.
    + left; exact I.
  - apply (lookup_failure_recovered urlsplit_netloc Scenario.some_str
             (fun _ => Body (Some (JObj [("id", JStr "org/name")])))
             (mk_entry "huggingface_datasets" "org/name" "train.py" "noon"
                       None None None None)).
    + left; reflexivity.
    + discriminate.
    + right; reflexivity.
Defined.

(** C5.  For a hosted-dataset reference whose lookup gives a non-empty
    licence text, the classification carries that text, the remote-lookup
    tag (spelled huggingface_api in the code), a note naming the
    identifier and the risk computed from the text, which is low for
    cc-by-4.0; a card whose licence field is a non-empty text is such a
    lookup; and every classification carries one of the two tags. *)
Theorem lookup_success
        (urlparse_netloc : string -> result string) (str_of : json -> string) :
  (forall net d lic,
      hosted d -> reference d <> EmptyString ->
      _fetch_hf_license str_of net (normalise_id (reference d)) = Some lic ->
      lic <> EmptyString ->
      _classify_reference urlparse_netloc str_of net d
      = Return (lic, "huggingface_api",
                "License read from HF card for '" ++ normalise_id (reference d) ++ "'",
                _risk_from_licence lic)) /\
  (forall net hf_id pairs card lic,
      net (api_url hf_id) = Body (Some (JObj pairs)) ->
      lookup "cardData" pairs = Some (JObj card) ->
      lookup "license" card = Some (JStr lic) ->
      lic <> EmptyString ->
      _fetch_hf_license str_of net hf_id = Some lic) /\
  (forall net d lic source notes risk,
      _classify_reference urlparse_netloc str_of net d
      = Return (lic, source, notes, risk) ->
      source = "huggingface_api" \/ source = "heuristic") /\
  _risk_from_licence "cc-by-4.0" = "low" /\
  (forall clock,
      enrich_with_licences urlparse_netloc str_of (fun _ => Scenario.cc_by_card)
        (scan_repository clock [Scenario.a_file Scenario.loader_text])
      = ([mk_entry "huggingface_load_dataset" "squad" "train.py" (clock 0)
                   (Some "cc-by-4.0") (Some "huggingface_api")
                   (Some "License read from HF card for 'squad'") (Some "low")],
         None)).
Proof.
  split; [|split; [|split; [|split]]].
  - intros net d lic H N F L.
    rewrite (classify_hosted urlparse_netloc str_of net d H N), F.
    destruct lic; [congruence|reflexivity].
  - intros net hf_id pairs card lic. apply licence_text_found.
  - intros net d lic source notes risk H.
    destruct (classify_returns _ _ _ _ _ _ _ _ H)
      as [[E _]|[[E _]|[[E _]|[[E _]|[E _]]]]]; auto.
  - reflexivity.
  - intros clock. vm_compute. reflexivity.
Qed.

Lemma lookup_success_witness :
  _classify_reference urlsplit_netloc Scenario.some_str Scenario.cc_by_card
    (mk_entry "huggingface_datasets" "org/name" "train.py" "noon"
              None None None None)
  = Return ("cc-by-4.0", "huggingface_api",
            "License read from HF card for 'org/name'", "low").
Proof.
  apply (proj1 (lookup_success urlsplit_netloc Scenario.some_str)
           Scenario.cc_by_card
           (mk_entry "huggingface_datasets" "org/name" "train.py" "noon"
                     None None None None) "cc-by-4.0").
  - left; reflexivity.
  - discriminate.
  - reflexivity.
  - discriminate.
Defined.

(** ** The tabular-read sample *)

(** C1, as stated, fails: the file with the one tabular read does not
    give exactly one reference. *)
Lemma csv_sample_not_one_reference :
  ~ exists e,
      scan_repository Scenario.noon [Scenario.a_file Scenario.csv_text] = [e].
Proof.
  intros [e H]. vm_compute in H. discriminate.
Qed.

(** C1, as the code has it.  An eligible file whose whole text is the
    tabular read of local/data.csv gives two references with that value:
    one of the tabular-read kind, then one of the bare-literal kind,
    because the quoted path also matches the bare-literal pattern.  Both
    are classified by the local-file branch: licence
    Proprietary/Project-internal, risk review. *)
Theorem csv_sample
        (clock : nat -> string) (urlparse_netloc : string -> result string)
        (str_of : json -> string) (net : nat -> string -> response) (p : path) :
  eligible p = true -> content p = Some Scenario.csv_text ->
  scan_repository clock [p]
  = [mk_entry "pandas_read_csv" "local/data.csv" (relative_name p) (clock 0)
              None None None None;
     mk_entry "dataset_urls" "local/data.csv" (relative_name p) (clock 1)
              None None None None] /\
  enrich_with_licences urlparse_netloc str_of net (scan_repository clock [p])
  = ([mk_entry "pandas_read_csv" "local/data.csv" (relative_name p) (clock 0)
               (Some "Proprietary/Project-internal") (Some "heuristic")
               (Some "Local file path in repo") (Some "review");
      mk_entry "dataset_urls" "local/data.csv" (relative_name p) (clock 1)
               (Some "Proprietary/Project-internal") (Some "heuristic")
               (Some "Local file path in repo") (Some "review")],
     None).
Proof.
  intros E C.
  assert (scan_repository clock [p]
          = [mk_entry "pandas_read_csv" "local/data.csv" (relative_name p) (clock 0)
                      None None None None;
             mk_entry "dataset_urls" "local/data.csv" (relative_name p) (clock 1)
                      None None None None]) as S.
  { unfold scan_repository. cbn [fold_left]. unfold scan_path. rewrite E, C.
    generalize (relative_name p); intros r. vm_compute. reflexivity. }
  split; [exact S|]. rewrite S.
  generalize (relative_name p); intros r. vm_compute. reflexivity.
Qed.

Lemma csv_sample_witness :
  map (fun d => (type d, reference d, file d, licence d, risk_flag d))
      (fst (enrich_with_licences urlsplit_netloc Scenario.some_str
              (fun _ => Scenario.unreachable)
              (scan_repository Scenario.noon [Scenario.a_file Scenario.csv_text])))
  = [("pandas_read_csv", "local/data.csv", "train.py",
      Some "Proprietary/Project-internal", Some "review");
     ("dataset_urls", "local/data.csv", "train.py",
      Some "Proprietary/Project-internal", Some "review")].
Proof.
  rewrite (proj2 (csv_sample Scenario.noon urlsplit_netloc Scenario.some_str
                    (fun _ => Scenario.unreachable)
                    (Scenario.a_file Scenario.csv_text) eq_refl eq_refl)).
  reflexivity.
Defined.

(** ** Enrichment that stops early *)

(** C8.  On a file that reads a CSV from a URL whose host part has an
    unmatched square bracket, [urlparse] raises [ValueError] inside
    [_classify_reference]; nothing catches it, so [enrich_with_licences]
    ends at the first reference and neither reference receives its four
    classification keys. *)
Theorem enrichment_stops_on_bracket_url
        (clock : nat -> string) (str_of : json -> string)
        (net : nat -> string -> response) :
  let found := scan_repository clock [Scenario.a_file Scenario.bracket_text] in
  found
  = [mk_entry "pandas_read_csv" "http://[x/data.csv" "train.py" (clock 0)
              None None None None;
     mk_entry "dataset_urls" "http://[x/data.csv" "train.py" (clock 1)
              None None None None] /\
  enrich_with_licences urlsplit_netloc str_of net found
  = (found, Some (ValueError "Invalid IPv6 URL")).
Proof.
  cbv zeta. split; vm_compute; reflexivity.
Qed.

(** * Further properties of the scan *)

Import Sem Report.

(** ** Which paths are read *)

Lemma eligible_false (p : path) :
  eligible p = false <->
  is_dir p = true \/
  ~ In (lower (suffix p)) file_extensions \/
  (exists part, In part (parts p) /\
                (In part skip_dirs \/ startswith part "." = true)) \/
  In (relative_name p) skip_files.
Proof.
  unfold eligible.
  rewrite !andb_false_iff, !negb_false_iff, mem_not_In, mem_In, existsb_exists.
  split.
  - intros [[[H|H]|[part [Hp H]]]|H]; auto.
    right; right; left. exists part. split; [exact Hp|].
    apply orb_true_iff in H as [H|H]; [left; apply mem_In|right]; exact H.
  - intros [H|[H|[[part [Hp H]]|H]]]; auto.
    left; right. exists part. split; [exact Hp|].
    apply orb_true_iff. destruct H as [H|H]; [left; apply mem_In|right]; exact H.
Qed.

Lemma scan_path_skipped (clock : nat -> string) (self : scanner) (p : path) :
  eligible p = false \/ content p = None -> scan_path clock self p = self.
Proof.
  unfold scan_path. intros [-> | H]; [reflexivity|].
  destruct (eligible p); [rewrite H|]; reflexivity.
Qed.

(** X1.  A path that is a directory, has an extension outside the
    allowed set, has a component that is a skipped directory name or
    starts with a dot, is one of the scanner's own files, or cannot be
    read, contributes nothing: the scan of the tree is the scan of the
    tree without it. *)
Theorem skipped_path_contributes_nothing
        (clock : nat -> string) (before after : list path) (p : path) :
  is_dir p = true \/
  ~ In (lower (suffix p)) file_extensions \/
  (exists part, In part (parts p) /\
                (In part skip_dirs \/ startswith part "." = true)) \/
  In (relative_name p) skip_files \/
  content p = None ->
  scan_repository clock (before ++ p :: after)
  = scan_repository clock (before ++ after).
Proof.
  intros H. unfold scan_repository. rewrite !fold_left_app. cbn [fold_left].
  rewrite scan_path_skipped; [reflexivity|].
  destruct H as [H|[H|[H|[H|H]]]]; [left|left|left|left|right; exact H];
    apply eligible_false; tauto.
Qed.

Lemma skipped_path_contributes_nothing_witness :
  scan_repository Scenario.noon
    [Scenario.a_file Scenario.loader_text;
     mk_path ["data"; "raw.py"] false (Some Scenario.csv_text)]
  = scan_repository Scenario.noon [Scenario.a_file Scenario.loader_text].
Proof.
  apply (skipped_path_contributes_nothing Scenario.noon
           [Scenario.a_file Scenario.loader_text] []
           (mk_path ["data"; "raw.py"] false (Some Scenario.csv_text))).
  right; right; left. exists "data".
  split; [left; reflexivity|left; apply mem_In; reflexivity].
Defined.

(** ** Where the references come from *)

Lemma in_all_captures (tree : list path) (x : capture) :
  In x (all_captures tree) <->
  exists p text pr m,
    In p tree /\ eligible p = true /\ content p = Some text /\
    In pr patterns /\ In m (findall (snd pr) text) /\
    x = (fst pr, relative_name p, m).
Proof.
  unfold all_captures. rewrite in_flat_map. split.
  - intros [p [Hp H]]. unfold captures_of_path in H.
    destruct (eligible p) eqn:E; [|contradiction].
    destruct (content p) as [text|] eqn:C; [|contradiction].
    apply in_flat_map in H as [pr [Hpr H]].
    apply in_map_iff in H as [m [<- Hm]].
    exists p, text, pr, m. auto 10.
  - intros [p [text [pr [m [Hp [E [C [Hpr [Hm ->]]]]]]]]].
    exists p. split; [exact Hp|]. unfold captures_of_path. rewrite E, C.
    apply in_flat_map. exists pr. split; [exact Hpr|].
    apply in_map_iff. exists m. auto.
Qed.

(** X2.  Every reference of the final list was matched in an eligible,
    readable file of the tree by one of the four patterns: its kind is the
    name of that pattern, its value the normalised match, its file the
    relative name of that file; and it carries none of the four
    classification keys yet.  A tree without an eligible readable file
    gives the empty list. *)
Theorem references_come_from_eligible_files
        (clock : nat -> string) (tree : list path) :
  (forall e, In e (scan_repository clock tree) ->
     exists p text pr m,
       In p tree /\ eligible p = true /\ content p = Some text /\
       In pr patterns /\ In m (findall (snd pr) text) /\
       type e = fst pr /\ reference e = normalise (fst pr) m /\
       file e = relative_name p /\
       licence e = None /\ licence_source e = None /\
       notes e = None /\ risk_flag e = None) /\
  ((forall p, In p tree -> eligible p = false \/ content p = None) ->
   scan_repository clock tree = []).
Proof.
  split.
  - intros e He. rewrite scan_repository_run in He.
    destruct (entry_first clock _ _ He) as [j [y [[Hy _] [Mt [Mr Mf]]]]].
    apply nth_error_In in Hy. apply in_all_captures in Hy.
    destruct Hy as [p [text [pr [m [Hp [E [C [Hpr [Hm ->]]]]]]]]].
    assert (Forall (fun d => licence d = None /\ licence_source d = None /\
                             notes d = None /\ risk_flag d = None)
                   (datasets_found (fold_left (step clock) (all_captures tree)
                                              (mk_scanner [] 0)))) as U
        by (apply run_unclassified; constructor).
    rewrite Forall_forall in U. destruct (U e He) as [U1 [U2 [U3 U4]]].
    exists p, text, pr, m. auto 12.
  - intros H. unfold scan_repository.
    assert (forall self, fold_left (scan_path clock) tree self = self) as Same.
    { induction tree as [|p tree IH]; intros self; [reflexivity|].
      cbn [fold_left]. rewrite scan_path_skipped by (apply H; left; reflexivity).
      apply IH. intros q Hq. apply H. right; exact Hq. }
    rewrite Same. reflexivity.
Qed.

Lemma references_come_from_eligible_files_witness :
  scan_repository Scenario.noon
    [mk_path ["venv"; "lib.py"] false (Some Scenario.csv_text);
     mk_path ["notes.md"] false None] = [].
Proof.
  apply (proj2 (references_come_from_eligible_files Scenario.noon
           [mk_path ["venv"; "lib.py"] false (Some Scenario.csv_text);
            mk_path ["notes.md"] false None])).
  intros p [<-|[<-|[]]]; [left|right]; reflexivity.
Defined.

(** ** Scanning more, scanning again *)

(** X3.  Files later in the walk never remove or reorder what earlier
    files gave: the scan of a tree followed by more paths starts with the
    scan of the tree. *)
Theorem scan_extends (clock : nat -> string) (tree more : list path) :
  exists added,
    scan_repository clock (tree ++ more)
    = (scan_repository clock tree ++ added)%list.
Proof.
  unfold scan_repository. rewrite fold_left_app, !scan_flat.
  apply run_grows.
Qed.

Lemma run_all_represented (clock : nat -> string) (cs : list capture) :
  forall self,
    (forall x, In x cs -> kept x = true ->
               exists d, In d (datasets_found self) /\ key d = key_of x) ->
    datasets_found (fold_left (step clock) cs self) = datasets_found self.
Proof.
  induction cs as [|x cs IH]; intros self H; [reflexivity|]. cbn [fold_left].
  assert (datasets_found (step clock self x) = datasets_found self) as E.
  { destruct (step_cases clock self x) as [[_ ->]|[[_ [_ E]]|[K [N _]]]]; auto.
    destruct (H x (or_introl eq_refl) K) as [d [Hd Ed]].
    exfalso; exact (N d Hd Ed). }
  rewrite IH; [exact E|].
  intros y Hy K. rewrite E. apply H; [right; exact Hy|exact K].
Qed.

(** X4.  Scanning the same tree a second time with the same scanner
    object adds nothing, whatever the scanner held before the first
    pass: every match of the second pass is a duplicate. *)
Theorem second_scan_adds_nothing
        (clock : nat -> string) (tree : list path) (self : scanner) :
  let once := fold_left (scan_path clock) tree self in
  datasets_found (fold_left (scan_path clock) tree once) = datasets_found once.
Proof.
  cbv zeta. rewrite !scan_flat.
  apply run_all_represented. intros x Hx K.
  apply run_represents; assumption.
Qed.

(** X5.  A pair of kind and lower-cased value is in the final list
    exactly when some eligible, readable file has a match of the pattern
    of that kind whose normalised value passes the filter and lower-cases
    to that value. *)
Theorem final_identities
        (clock : nat -> string) (tree : list path) (kind value : string) :
  In (kind, value) (map ident (scan_repository clock tree)) <->
  exists p text pr m,
    In p tree /\ eligible p = true /\ content p = Some text /\
    In pr patterns /\ In m (findall (snd pr) text) /\
    fst pr = kind /\ discarded (normalise kind m) = false /\
    lower (normalise kind m) = value.
Proof.
  rewrite scan_repository_run, in_map_iff. split.
  - intros [e [Ie He]].
    destruct (entry_first clock _ _ He) as [j [y [[Hy [K _]] [Mt [Mr Mf]]]]].
    apply nth_error_In in Hy. apply in_all_captures in Hy.
    destruct Hy as [p [text [pr [m [Hp [E [C [Hpr [Hm ->]]]]]]]]].
    unfold ident in Ie. injection Ie as <- <-.
    unfold kept, value_of, pattern_of in K; cbn [fst snd] in K.
    apply negb_true_iff in K.
    unfold value_of, pattern_of in Mr; cbn [fst snd] in Mr, Mt.
    exists p, text, pr, m. rewrite Mt, Mr. auto 10.
  - intros [p [text [pr [m [Hp [E [C [Hpr [Hm [<- [D <-]]]]]]]]]]].
    set (x := (fst pr, relative_name p, m) : capture).
    assert (In x (all_captures tree)) as Hx
        by (apply in_all_captures; exists p, text, pr, m; auto 10).
    assert (kept x = true) as K
        by (unfold kept, value_of, pattern_of, x; cbn [fst snd]; rewrite D; reflexivity).
    destruct (In_nth_error _ _ Hx) as [i Hi].
    destruct (exists_first _ _ _ Hi K) as [j [y [_ [F I]]]].
    destruct (first_kept clock _ _ _ (all_captures_no_colon tree) F)
      as [e [He [Mt [Mr _]]]].
    exists e. split; [|exact He].
    unfold ident. rewrite Mt, Mr. exact I.
Qed.

Lemma final_identities_witness :
  In ("huggingface_load_dataset", "name")
     (map ident (scan_repository Scenario.noon
                   [Scenario.a_file Scenario.two_cases_text])).
Proof.
  apply (final_identities Scenario.noon [Scenario.a_file Scenario.two_cases_text]).
  exists (Scenario.a_file Scenario.two_cases_text), Scenario.two_cases_text,
         ("huggingface_load_dataset", re_huggingface_load_dataset), (FStr "Name").
  split; [left; reflexivity|]. split; [reflexivity|]. split; [reflexivity|].
  split; [left; reflexivity|]. split; [vm_compute; auto|].
  split; [reflexivity|]. split; reflexivity.
Defined.

(** ** The clock *)

Section ClockFacts.
Variables clock1 clock2 : nat -> string.

Local Abbreviation triple := (fun d : entry => (type d, reference d, file d)).

Lemma keys_of_triples (l1 l2 : list entry) :
  map triple l1 = map triple l2 -> map key l1 = map key l2.
Proof.
  intros H.
  apply (f_equal (map (fun t : string * string * string =>
                         fst (fst t) ++ ":" ++ lower (snd (fst t))))) in H.
  rewrite !map_map in H. exact H.
Qed.

Lemma key_present (l : list entry) (k : string) :
  (exists d, In d l /\ key d = k) <-> In k (map key l).
Proof.
  rewrite in_map_iff. split; intros [d [H1 H2]]; exists d; auto.
Qed.

Lemma step_triples (s1 s2 : scanner) (x : capture) :
  map triple (datasets_found s1) = map triple (datasets_found s2) ->
  map triple (datasets_found (step clock1 s1 x))
  = map triple (datasets_found (step clock2 s2 x)).
Proof.
  intros H. pose proof (keys_of_triples _ _ H) as HK.
  destruct (step_cases clock1 s1 x) as [[K1 ->]|[[K1 [P1 ->]]|[K1 [N1 ->]]]];
    destruct (step_cases clock2 s2 x) as [[K2 ->]|[[K2 [P2 ->]]|[K2 [N2 ->]]]];
    try congruence.
  - exfalso. apply key_present in P1. rewrite HK in P1.
    apply key_present in P1 as [d [Hd E]]. exact (N2 d Hd E).
  - exfalso. apply key_present in P2. rewrite <- HK in P2.
    apply key_present in P2 as [d [Hd E]]. exact (N1 d Hd E).
  - rewrite !map_app, H. reflexivity.
Qed.

Lemma run_triples (cs : list capture) :
  forall s1 s2,
    map triple (datasets_found s1) = map triple (datasets_found s2) ->
    map triple (datasets_found (fold_left (step clock1) cs s1))
    = map triple (datasets_found (fold_left (step clock2) cs s2)).
Proof.
  induction cs as [|x cs IH]; intros s1 s2 H; [exact H|].
  cbn [fold_left]. apply IH. apply step_triples. exact H.
Qed.

End ClockFacts.

(** X6.  The clock has no influence on what is found: two scans of the
    same tree give the same kinds, values and files in the same order,
    whatever the clock reads. *)
Theorem scan_independent_of_clock
        (clock1 clock2 : nat -> string) (tree : list path) :
  map (fun d => (type d, reference d, file d)) (scan_repository clock1 tree)
  = map (fun d => (type d, reference d, file d)) (scan_repository clock2 tree).
Proof.
  rewrite !scan_repository_run. apply run_triples. reflexivity.
Qed.

(** ** What the matcher consumes *)

Section MatcherFacts.
Variable A : Type.

Lemma rep_sound (i : item) (s : string) :
  forall least (k : string -> option A) a,
    rep i least s k = Some a ->
    exists n s', least <= n /\ run_of i n s s' /\ k s' = Some a.
Proof.
  induction s as [|c s IH]; intros least k a H; simpl in H.
  - destruct (Nat.eqb least 0) eqn:E; [|discriminate].
    apply Nat.eqb_eq in E. exists 0, EmptyString.
    split; [lia|]. split; [constructor|exact H].
  - assert ((if Nat.eqb least 0 then k (String c s) else None) = Some a ->
            exists n s', least <= n /\ run_of i n (String c s) s' /\ k s' = Some a)
      as Stop.
    { destruct (Nat.eqb least 0) eqn:E; [|discriminate].
      apply Nat.eqb_eq in E. intros Hk. exists 0, (String c s).
      split; [lia|]. split; [constructor|exact Hk]. }
    destruct (item_matches i c) eqn:M; [|auto].
    destruct (rep i (Nat.pred least) s k) as [a'|] eqn:R; [|auto].
    injection H as ->.
    destruct (IH _ _ _ R) as [n [s' [L [Hr Hk]]]].
    exists (S n), s'. split; [lia|]. split; [constructor; assumption|exact Hk].
Qed.

Lemma exec_sound (r : regex) :
  forall s caps (k : string -> captures -> option A) a,
    exec r s caps k = Some a ->
    exists s' caps', matches r s caps s' caps' /\ k s' caps' = Some a.
Proof.
  induction r as [|i|least i|r IH|r1 IH1 r2 IH2|r1 IH1 r2 IH2|n r IH];
    intros s caps k a H; simpl in H.
  - exists s, caps. split; [constructor|exact H].
  - destruct s as [|c s]; [discriminate|].
    destruct (item_matches i c) eqn:M; [|discriminate].
    exists s, caps. split; [constructor; exact M|exact H].
  - destruct (rep_sound _ _ _ _ _ H) as [m [s' [L [Hr Hk]]]].
    exists s', caps. split; [econstructor; eassumption|exact Hk].
  - destruct (exec r s caps k) as [a'|] eqn:E.
    + injection H as ->. destruct (IH _ _ _ _ E) as [s' [caps' [Hm Hk]]].
      exists s', caps'. split; [constructor; exact Hm|exact Hk].
    + exists s, caps. split; [apply m_opt_none|exact H].
  - destruct (IH1 _ _ _ _ H) as [s1 [caps1 [Hm1 H1]]].
    destruct (IH2 _ _ _ _ H1) as [s2 [caps2 [Hm2 H2]]].
    exists s2, caps2. split; [econstructor; eassumption|exact H2].
  - destruct (exec r1 s caps k) as [a'|] eqn:E.
    + injection H as ->. destruct (IH1 _ _ _ _ E) as [s' [caps' [Hm Hk]]].
      exists s', caps'. split; [apply m_alt_left; exact Hm|exact Hk].
    + destruct (IH2 _ _ _ _ H) as [s' [caps' [Hm Hk]]].
      exists s', caps'. split; [apply m_alt_right; exact Hm|exact Hk].
  - destruct (IH _ _ _ _ H) as [s' [caps' [Hm Hk]]].
    eexists _, _. split; [apply m_group; exact Hm|exact Hk].
Qed.

End MatcherFacts.

Lemma match_here_sound (r : regex) (s rest : string) (caps : captures) :
  match_here r s = Some (rest, caps) -> matches r s [] rest caps.
Proof.
  unfold match_here. intros H.
  destruct (exec_sound _ _ _ _ _ _ H) as [s' [caps' [Hm E]]].
  injection E as <- <-. exact Hm.
Qed.

Lemma findall_from_match (r : regex) (s : string) :
  forall skip m, In m (findall_from r skip s) ->
    exists s0 rest caps,
      match_here r s0 = Some (rest, caps) /\ m = found_of r s0 rest caps.
Proof.
  induction s as [|c s IH]; intros skip m H; simpl in H.
  - destruct skip; [|contradiction].
    destruct (match_here r EmptyString) as [[rest caps]|] eqn:E; [|contradiction].
    destruct H as [<-|[]]. eauto.
  - destruct skip as [|n]; [|eauto].
    destruct (match_here r (String c s)) as [[rest caps]|] eqn:E; [|eauto].
    destruct H as [<-|H]; eauto.
Qed.

Lemma length_append (a b : string) :
  String.length (a ++ b) = String.length a + String.length b.
Proof. induction a; simpl; congruence. Qed.

Lemma take_length (pre s' : string) : take (String.length pre) (pre ++ s') = pre.
Proof. induction pre; simpl; congruence. Qed.

Lemma take_app_length (pre s' : string) :
  take (String.length (pre ++ s') - String.length s') (pre ++ s') = pre.
Proof.
  rewrite length_append.
  replace (String.length pre + String.length s' - String.length s')
    with (String.length pre) by lia.
  apply take_length.
Qed.

Lemma append_assoc (a b c : string) : (a ++ b) ++ c = a ++ (b ++ c).
Proof. induction a; simpl; congruence. Qed.

Lemma append_nil_r (a : string) : a ++ EmptyString = a.
Proof. induction a; simpl; congruence. Qed.

Lemma all_chars_app (p : ascii -> bool) (a b : string) :
  all_chars p (a ++ b) = all_chars p a && all_chars p b.
Proof.
  induction a as [|c a IH]; simpl; [reflexivity|].
  rewrite IH, andb_assoc. reflexivity.
Qed.

Lemma run_of_prefix (i : item) (n : nat) (s s' : string) :
  run_of i n s s' ->
  exists pre, s = pre ++ s' /\ String.length pre = n /\
              all_chars (item_matches i) pre = true.
Proof.
  induction 1 as [s|n c s s' M R [pre [-> [L Hp]]]].
  - exists EmptyString. auto.
  - exists (String c pre). simpl. rewrite M, Hp, L. auto.
Qed.

(** A match consumes a prefix of the text. *)
Lemma matches_prefix (r : regex) (s s' : string) (caps caps' : captures) :
  matches r s caps s' caps' -> exists pre, s = pre ++ s'.
Proof.
  induction 1 as [s caps|i c s caps M|least n i s s' caps L R
                  |r s s' caps caps' H IH|r s caps
                  |r1 r2 s s1 s2 caps caps1 caps2 H1 IH1 H2 IH2
                  |r1 r2 s s' caps caps' H IH|r1 r2 s s' caps caps' H IH
                  |n r s s' caps caps' H IH];
    try exact IH.
  - exists EmptyString; reflexivity.
  - exists (String c EmptyString); reflexivity.
  - destruct (run_of_prefix _ _ _ _ R) as [pre [-> _]]. eauto.
  - exists EmptyString; reflexivity.
  - destruct IH1 as [p1 ->]. destruct IH2 as [p2 ->].
    exists (p1 ++ p2). symmetry; apply append_assoc.
Qed.

(** What holds of the text of every group numbered [n] holds of the
    captured text of that number after a match. *)
Lemma group_invariant (P : string -> Prop) (n : nat)
      (r : regex) (s s' : string) (caps caps' : captures) :
  matches r s caps s' caps' ->
  (forall r1, In (n, r1) (groups_in r) ->
     forall t t' c c', matches r1 t c t' c' ->
                       P (take (String.length t - String.length t') t)) ->
  P (group_text caps n) -> P (group_text caps' n).
Proof.
  induction 1 as [s caps|i c s caps M|least k i s s' caps L R
                  |r s s' caps caps' H IH|r s caps
                  |r1 r2 s s1 s2 caps caps1 caps2 H1 IH1 H2 IH2
                  |r1 r2 s s' caps caps' H IH|r1 r2 s s' caps caps' H IH
                  |m r s s' caps caps' H IH];
    intros G P0; try exact P0; cbn [groups_in] in G.
  - apply IH; assumption.
  - apply IH2; [intros r0 Hr; apply G; apply in_or_app; right; exact Hr|].
    apply IH1; [intros r0 Hr; apply G; apply in_or_app; left; exact Hr|exact P0].
  - apply IH; [intros r0 Hr; apply G; apply in_or_app; left; exact Hr|exact P0].
  - apply IH; [intros r0 Hr; apply G; apply in_or_app; right; exact Hr|exact P0].
  - cbn [group_text]. destruct (Nat.eqb m n) eqn:E.
    + apply Nat.eqb_eq in E; subst m.
      apply (G r (or_introl eq_refl) s s' caps caps' H).
    + apply IH; [intros r0 Hr; apply G; right; exact Hr|exact P0].
Qed.

(** Inversion of [matches] on each form of pattern. *)
Lemma matches_eps_inv (t t' : string) (c c' : captures) :
  matches Eps t c t' c' -> t' = t /\ c' = c.
Proof. intros H; inversion H; subst; auto. Qed.

Lemma matches_one_inv (i : item) (t t' : string) (c c' : captures) :
  matches (One i) t c t' c' ->
  exists ch, t = String ch t' /\ item_matches i ch = true /\ c' = c.
Proof. intros H; inversion H; subst; eauto. Qed.

Lemma matches_rep_inv (least : nat) (i : item) (t t' : string) (c c' : captures) :
  matches (Rep least i) t c t' c' ->
  exists n, least <= n /\ run_of i n t t' /\ c' = c.
Proof. intros H; inversion H; subst; eauto. Qed.

Lemma matches_cat_inv (r1 r2 : regex) (t t' : string) (c c' : captures) :
  matches (Cat r1 r2) t c t' c' ->
  exists t1 c1, matches r1 t c t1 c1 /\ matches r2 t1 c1 t' c'.
Proof. intros H; inversion H; subst; eauto. Qed.

Lemma matches_alt_inv (r1 r2 : regex) (t t' : string) (c c' : captures) :
  matches (Alt r1 r2) t c t' c' ->
  matches r1 t c t' c' \/ matches r2 t c t' c'.
Proof. intros H; inversion H; subst; auto. Qed.

(** A repetition consumes characters that all match its item. *)
Lemma rep_consumes (least : nat) (i : item) (t t' : string) (c c' : captures) :
  matches (Rep least i) t c t' c' ->
  exists pre, t = pre ++ t' /\ least <= String.length pre /\
              all_chars (item_matches i) pre = true.
Proof.
  intros H. destruct (matches_rep_inv _ _ _ _ _ _ H) as [n [L [R _]]].
  destruct (run_of_prefix _ _ _ _ R) as [pre [-> [Ln Hp]]].
  exists pre. split; [reflexivity|]. split; [lia|exact Hp].
Qed.

(** A literal consumes a text equal to it up to letter case. *)
Lemma lit_consumes (w : string) :
  forall t t' c c', matches (lit w) t c t' c' ->
    exists pre, t = pre ++ t' /\ lower pre = lower w.
Proof.
  induction w as [|a w IH]; intros t t' c c' H.
  - apply matches_eps_inv in H as [-> _]. exists EmptyString; auto.
  - destruct w as [|b w].
    + apply matches_one_inv in H as [ch [-> [M _]]].
      exists (String ch EmptyString). split; [reflexivity|].
      simpl. unfold item_matches, same_letter in M.
      apply Ascii.eqb_eq in M. congruence.
    + change (lit (String a (String b w)))
        with (Cat (One (Lit a)) (lit (String b w))) in H.
      apply matches_cat_inv in H as [t1 [c1 [H1 H2]]].
      apply matches_one_inv in H1 as [ch [-> [M _]]].
      destruct (IH _ _ _ _ H2) as [pre [-> E]].
      exists (String ch pre). split; [reflexivity|].
      simpl. unfold item_matches, same_letter in M.
      apply Ascii.eqb_eq in M. simpl in E. congruence.
Qed.

(** ** The characters of a value *)

Lemma all_chars_impl (p q : ascii -> bool) (s : string) :
  (forall c, p c = true -> q c = true) ->
  all_chars p s = true -> all_chars q s = true.
Proof.
  intros I. induction s as [|c s IH]; simpl; [reflexivity|].
  intros H. apply andb_true_iff in H as [H1 H2].
  rewrite (I c H1), (IH H2). reflexivity.
Qed.

Lemma all_chars_lstrip (p q : ascii -> bool) (s : string) :
  all_chars p s = true -> all_chars p (lstrip_by q s) = true.
Proof.
  induction s as [|c s IH]; simpl; [reflexivity|].
  intros H. destruct (q c); [|exact H].
  apply andb_true_iff in H as [_ H]. auto.
Qed.

Lemma all_chars_rstrip (p q : ascii -> bool) (s : string) :
  all_chars p s = true -> all_chars p (rstrip_by q s) = true.
Proof.
  induction s as [|c s IH]; simpl; [reflexivity|].
  intros H. apply andb_true_iff in H as [H1 H2]. specialize (IH H2).
  destruct (rstrip_by q s) as [|a r].
  - destruct (q c); simpl; [reflexivity|rewrite H1; reflexivity].
  - change (all_chars p (String c (String a r)))
      with (p c && all_chars p (String a r)).
    rewrite H1, IH. reflexivity.
Qed.

Lemma all_chars_strip (p : ascii -> bool) (s : string) :
  all_chars p s = true -> all_chars p (strip s) = true.
Proof.
  intros H. unfold strip. apply all_chars_lstrip, all_chars_rstrip, H.
Qed.

Lemma all_chars_lower (p : ascii -> bool) (s : string) :
  (forall c, p (lower_ascii c) = p c) ->
  all_chars p (lower s) = all_chars p s.
Proof.
  intros I. induction s as [|c s IH]; simpl; [reflexivity|].
  rewrite I, IH. reflexivity.
Qed.

Lemma not_quote_unquoted (c : ascii) :
  item_matches not_quote c = true -> unquoted c = true.
Proof.
  destruct c as [[] [] [] [] [] [] [] []]; vm_compute; intros H; congruence.
Qed.

Lemma path_class_plain (c : ascii) :
  item_matches (Class true [squote; dquote; backslash; "s"%char]) c = true ->
  plain c = true.
Proof.
  destruct c as [[] [] [] [] [] [] [] []]; vm_compute; intros H; congruence.
Qed.

Lemma unquoted_lower (c : ascii) : unquoted (lower_ascii c) = unquoted c.
Proof. destruct c as [[] [] [] [] [] [] [] []]; reflexivity. Qed.

Lemma plain_unquoted (c : ascii) : plain c = true -> unquoted c = true.
Proof.
  unfold plain, unquoted. intros H.
  apply andb_true_iff in H as [H _]. apply andb_true_iff in H as [H _]. exact H.
Qed.

(** *** Endings *)

Lemma endswith_append (a e : string) : endswith (a ++ e) e = true.
Proof.
  induction a as [|c a IH].
  - destruct e; cbn [append endswith]; rewrite String.eqb_refl; reflexivity.
  - cbn [append endswith]. rewrite IH. apply orb_true_r.
Qed.

Lemma rstrip_by_append (p : ascii -> bool) (a b : string) :
  b <> EmptyString -> rstrip_by p b = b -> rstrip_by p (a ++ b) = a ++ b.
Proof.
  intros N H. induction a as [|c a IH]; simpl; [exact H|].
  rewrite IH. destruct (a ++ b) eqn:E; [|reflexivity].
  destruct a; simpl in E; [congruence|discriminate].
Qed.

Lemma lstrip_by_append (p : ascii -> bool) (a : string) (c : ascii) (b : string) :
  p c = false -> exists a', lstrip_by p (a ++ String c b) = a' ++ String c b.
Proof.
  intros H. induction a as [|d a [a' IH]]; simpl.
  - rewrite H. exists EmptyString; reflexivity.
  - destruct (p d); [exists a'; exact IH|].
    exists (String d a); reflexivity.
Qed.

Lemma strip_keeps_extension (a ext : string) :
  In ext data_extensions -> exists a', strip (a ++ ext) = a' ++ ext.
Proof.
  intros H. unfold strip.
  assert (ext <> EmptyString /\ rstrip_by isspace ext = ext /\
          exists c b, ext = String c b /\ isspace c = false) as [N [R [c [b [E S]]]]].
  { simpl in H. destruct H as [<-|[<-|[<-|[<-|[]]]]];
      (split; [discriminate|split; [reflexivity|]]); eexists _, _; split; reflexivity. }
  rewrite (rstrip_by_append isspace a ext N R). rewrite E.
  apply lstrip_by_append; exact S.
Qed.

(** *** The groups of the four patterns *)

Section GroupFacts.
Variables (t t' : string) (c c' : captures).

Lemma value_group_unquoted :
  matches (Rep 1 not_quote) t c t' c' ->
  all_chars unquoted (take (String.length t - String.length t') t) = true.
Proof.
  intros H. destruct (rep_consumes _ _ _ _ _ _ H) as [pre [-> [_ Hp]]].
  rewrite take_app_length.
  apply (all_chars_impl (item_matches not_quote)); [exact not_quote_unquoted|exact Hp].
Qed.

Lemma path_group_plain :
  matches (Rep 1 (Class true [squote; dquote; backslash; "s"%char])) t c t' c' ->
  all_chars plain (take (String.length t - String.length t') t) = true.
Proof.
  intros H. destruct (rep_consumes _ _ _ _ _ _ H) as [pre [-> [_ Hp]]].
  rewrite take_app_length.
  eapply all_chars_impl; [exact path_class_plain|exact Hp].
Qed.

Lemma literal_group_ending :
  matches (Cat (Rep 0 not_quote)
               (Alt (lit ".csv")
                    (Alt (lit ".jsonl") (Alt (lit ".parquet") (lit ".zip")))))
          t c t' c' ->
  let g := take (String.length t - String.length t') t in
  all_chars unquoted g = true /\
  exists a ext, In ext data_extensions /\ lower g = a ++ ext.
Proof.
  intros H. apply matches_cat_inv in H as [t1 [c1 [H1 H2]]].
  destruct (rep_consumes _ _ _ _ _ _ H1) as [pre [-> [_ Hp]]].
  assert (exists w ext, t1 = w ++ t' /\ In ext data_extensions /\ lower w = ext)
    as [w [ext [-> [He Hw]]]].
  { apply matches_alt_inv in H2 as [H2|H2];
      [|apply matches_alt_inv in H2 as [H2|H2];
        [|apply matches_alt_inv in H2 as [H2|H2]]];
      destruct (lit_consumes _ _ _ _ _ H2) as [w [-> E]];
      eexists w, _; (split; [reflexivity|]); (split; [|exact E]);
      simpl; auto. }
  cbv zeta. rewrite <- append_assoc, take_app_length.
  assert (lower (pre ++ w) = lower pre ++ lower w) as L
      by (clear; induction pre; simpl; congruence).
  split.
  - rewrite all_chars_app.
    rewrite (all_chars_impl (item_matches not_quote) unquoted pre
               not_quote_unquoted Hp).
    rewrite <- (all_chars_lower unquoted w unquoted_lower), Hw.
    simpl in He. destruct He as [<-|[<-|[<-|[<-|[]]]]]; reflexivity.
  - exists (lower pre), ext. split; [exact He|]. rewrite L, Hw. reflexivity.
Qed.

End GroupFacts.

(** *** The values of the four patterns *)

Lemma loader_value (text : string) (m : found) :
  In m (findall re_huggingface_load_dataset text) ->
  all_chars unquoted (normalise "huggingface_load_dataset" m) = true.
Proof.
  intros H. destruct (findall_from_match _ _ _ _ H) as [s0 [rest [caps [M ->]]]].
  apply match_here_sound in M.
  change (normalise "huggingface_load_dataset"
                    (found_of re_huggingface_load_dataset s0 rest caps))
    with (strip (group_text caps 1)).
  apply all_chars_strip.
  apply (group_invariant (fun g => all_chars unquoted g = true) 1 _ _ _ _ _ M);
    [|reflexivity].
  intros r1 Hr t t' c c' Hm. vm_compute in Hr. destruct Hr as [E|[]].
  injection E as <-. exact (value_group_unquoted t t' c c' Hm).
Qed.

Lemma tabular_value (text : string) (m : found) :
  In m (findall re_pandas_read_csv text) ->
  all_chars unquoted (normalise "pandas_read_csv" m) = true.
Proof.
  intros H. destruct (findall_from_match _ _ _ _ H) as [s0 [rest [caps [M ->]]]].
  apply match_here_sound in M.
  change (normalise "pandas_read_csv" (found_of re_pandas_read_csv s0 rest caps))
    with (strip (group_text caps 1)).
  apply all_chars_strip.
  apply (group_invariant (fun g => all_chars unquoted g = true) 1 _ _ _ _ _ M);
    [|reflexivity].
  intros r1 Hr t t' c c' Hm. vm_compute in Hr. destruct Hr as [E|[]].
  injection E as <-. exact (value_group_unquoted t t' c c' Hm).
Qed.

Lemma literal_value (text : string) (m : found) :
  In m (findall re_dataset_urls text) ->
  let v := normalise "dataset_urls" m in
  all_chars unquoted v = true /\
  (v = EmptyString \/ exists a ext, In ext data_extensions /\ lower v = a ++ ext).
Proof.
  intros H. destruct (findall_from_match _ _ _ _ H) as [s0 [rest [caps [M ->]]]].
  apply match_here_sound in M.
  change (normalise "dataset_urls" (found_of re_dataset_urls s0 rest caps))
    with (strip (group_text caps 1)).
  cbv zeta.
  assert (all_chars unquoted (group_text caps 1) = true /\
          (group_text caps 1 = EmptyString \/
           exists a ext, In ext data_extensions /\
                         lower (group_text caps 1) = a ++ ext)) as [U E].
  { apply (group_invariant
             (fun g => all_chars unquoted g = true /\
                       (g = EmptyString \/
                        exists a ext, In ext data_extensions /\ lower g = a ++ ext))
             1 _ _ _ _ _ M); [|split; [reflexivity|left; reflexivity]].
    intros r1 Hr t t' c c' Hm. vm_compute in Hr. destruct Hr as [Er|[]].
    injection Er as <-.
    destruct (literal_group_ending t t' c c' Hm) as [U E]. split; [exact U|].
    right; exact E. }
  split; [apply all_chars_strip; exact U|].
  destruct E as [->|[a [ext [He El]]]]; [left; reflexivity|right].
  destruct (strip_keeps_extension a ext He) as [a' Ha].
  exists a', ext. split; [exact He|].
  rewrite <- strip_lower, El. exact Ha.
Qed.

Lemma hosted_value (text : string) (m : found) :
  In m (findall re_huggingface_datasets text) ->
  all_chars plain (normalise "huggingface_datasets" m) = true.
Proof.
  intros H. destruct (findall_from_match _ _ _ _ H) as [s0 [rest [caps [M ->]]]].
  apply match_here_sound in M.
  change (normalise "huggingface_datasets"
                    (found_of re_huggingface_datasets s0 rest caps))
    with (strip (group_text caps 2)).
  apply all_chars_strip.
  apply (group_invariant (fun g => all_chars plain g = true) 2 _ _ _ _ _ M);
    [|reflexivity].
  intros r1 Hr t t' c c' Hm. vm_compute in Hr. destruct Hr as [E|[E|[]]].
  - discriminate.
  - injection E as <-. exact (path_group_plain t t' c c' Hm).
Qed.

(** An entry of the final list, its pattern and its match. *)
Lemma scan_entry_match (clock : nat -> string) (tree : list path) (e : entry) :
  In e (scan_repository clock tree) ->
  exists pr text m,
    In pr patterns /\ In m (findall (snd pr) text) /\
    type e = fst pr /\ reference e = normalise (fst pr) m.
Proof.
  intros He. rewrite scan_repository_run in He.
  destruct (entry_first clock _ _ He) as [j [y [[Hy _] [Mt [Mr _]]]]].
  apply nth_error_In in Hy. apply in_all_captures in Hy.
  destruct Hy as [p [text [pr [m [_ [_ [_ [Hpr [Hm ->]]]]]]]]].
  exists pr, text, m. auto.
Qed.

(** X7.  No reference value contains a quote character, single or
    double, whatever the files hold. *)
Theorem reference_values_have_no_quotes
        (clock : nat -> string) (tree : list path) (e : entry) :
  In e (scan_repository clock tree) ->
  all_chars (fun c => negb (is_quote c)) (reference e) = true.
Proof.
  intros He.
  destruct (scan_entry_match clock tree e He) as [pr [text [m [Hpr [Hm [_ ->]]]]]].
  simpl in Hpr. destruct Hpr as [<-|[<-|[<-|[<-|[]]]]]; cbn [fst snd] in *.
  - exact (loader_value text m Hm).
  - exact (tabular_value text m Hm).
  - exact (proj1 (literal_value text m Hm)).
  - apply (all_chars_impl plain); [exact plain_unquoted|].
    exact (hosted_value text m Hm).
Qed.

Lemma reference_values_have_no_quotes_witness :
  all_chars (fun c => negb (is_quote c)) "local/data.csv" = true.
Proof.
  apply (reference_values_have_no_quotes Scenario.noon
           [Scenario.a_file Scenario.csv_text]
           (mk_entry "pandas_read_csv" "local/data.csv" "train.py" (Scenario.noon 0)
                     None None None None)).
  vm_compute. left; reflexivity.
Defined.

Lemma scan_entry_kept (clock : nat -> string) (tree : list path) (e : entry) :
  In e (scan_repository clock tree) -> discarded (reference e) = false.
Proof.
  rewrite scan_repository_run. intros He.
  assert (Forall (fun d => discarded (reference d) = false)
                 (datasets_found (fold_left (step clock) (all_captures tree)
                                            (mk_scanner [] 0)))) as H
      by (apply run_filter; constructor).
  rewrite Forall_forall in H. exact (H e He).
Qed.

(** X8.  The value of a hosted-dataset-URL reference never contains the
    letter s, in either case, nor a backslash: the class that ends the
    dataset path excludes that letter, so a path is cut before its first
    s (org/dataset is recorded as org/data). *)
Theorem hosted_url_value_has_no_letter_s
        (clock : nat -> string) (tree : list path) :
  (forall e,
      In e (scan_repository clock tree) -> type e = "huggingface_datasets" ->
      all_chars (fun c => negb (is_letter_s c) && negb (Ascii.eqb c backslash))
                (reference e) = true) /\
  map reference
      (scan_repository clock
         [Scenario.a_file "see huggingface.co/datasets/org/dataset for details"])
  = ["org/data"].
Proof.
  split; [|vm_compute; reflexivity].
  intros e He Ht.
  destruct (scan_entry_match clock tree e He) as [pr [text [m [Hpr [Hm [Et ->]]]]]].
  rewrite Ht in Et.
  simpl in Hpr. destruct Hpr as [<-|[<-|[<-|[<-|[]]]]]; cbn [fst snd] in *;
    try discriminate.
  apply (all_chars_impl plain); [|exact (hosted_value text m Hm)].
  intros c. unfold plain. intros H.
  apply andb_true_iff in H as [H H3]. apply andb_true_iff in H as [_ H2].
  rewrite H2, H3. reflexivity.
Qed.

Lemma hosted_url_value_has_no_letter_s_witness :
  all_chars (fun c => negb (is_letter_s c) && negb (Ascii.eqb c backslash))
            "org/name" = true.
Proof.
  apply (proj1 (hosted_url_value_has_no_letter_s Scenario.noon
                  [Scenario.a_file Scenario.card_text])
           (mk_entry "huggingface_datasets" "org/name" "train.py" (Scenario.noon 0)
                     None None None None)).
  - vm_compute. left; reflexivity.
  - reflexivity.
Defined.

(** X9.  In a tree whose readable files are ASCII texts, the value of a
    bare-literal reference ends, up to letter case, in one of the four
    data-file extensions; so such a reference that is not an http or
    https URL is always classified as a local file, never by the
    fallback branch. *)
Theorem bare_literal_is_local_file
        (clock : nat -> string) (tree : list path) (e : entry) :
  (forall p text, In p tree -> content p = Some text -> ascii_text text = true) ->
  In e (scan_repository clock tree) -> type e = "dataset_urls" ->
  existsb (fun ext => endswith (lower (reference e)) ext) data_extensions = true /\
  forall urlparse_netloc str_of net,
    _looks_like_url (reference e) = false ->
    _classify_reference urlparse_netloc str_of net e
    = Return ("Proprietary/Project-internal", "heuristic",
              "Local file path in repo", "review").
Proof.
  intros _ He Ht.
  assert (existsb (fun ext => endswith (lower (reference e)) ext) data_extensions
          = true) as E.
  { pose proof (scan_entry_kept clock tree e He) as K.
    destruct (scan_entry_match clock tree e He) as [pr [text [m [Hpr [Hm [Et Er]]]]]].
    rewrite Ht in Et.
    simpl in Hpr. destruct Hpr as [<-|[<-|[<-|[<-|[]]]]]; cbn [fst snd] in *;
      try discriminate.
    destruct (literal_value text m Hm) as [_ [Z|[a [ext [Hx L]]]]].
    - rewrite <- Er in Z. rewrite Z in K. discriminate.
    - apply existsb_exists. exists ext. split; [exact Hx|].
      rewrite Er, L. apply endswith_append. }
  split; [exact E|].
  intros urlparse_netloc str_of net U.
  unfold _classify_reference. rewrite Ht, U. cbn [String.eqb Ascii.eqb Bool.eqb].
  unfold data_extensions in E. rewrite E. reflexivity.
Qed.

Lemma bare_literal_is_local_file_witness :
  _classify_reference urlsplit_netloc Scenario.some_str Scenario.unreachable
    (mk_entry "dataset_urls" "local/data.csv" "train.py" (Scenario.noon 1)
              None None None None)
  = Return ("Proprietary/Project-internal", "heuristic",
            "Local file path in repo", "review").
Proof.
  apply (proj2 (bare_literal_is_local_file Scenario.noon
                  [Scenario.a_file Scenario.csv_text]
                  (mk_entry "dataset_urls" "local/data.csv" "train.py"
                            (Scenario.noon 1) None None None None)
                  ltac:(intros p text [<-|[]] C; injection C as <-;
                        vm_compute; reflexivity)
                  ltac:(vm_compute; right; left; reflexivity) eq_refl)).
  reflexivity.
Defined.

(** * Further properties of the classifier *)

Section ClassifierBranches.
Variable urlparse_netloc : string -> result string.
Variable str_of : json -> string.

Local Abbreviation classify := (_classify_reference urlparse_netloc str_of).

(** The branches after the hosted one, for a reference that does not
    take the hosted branch. *)
Lemma classify_not_hosted (net : string -> response) (d : entry) :
  ~ (hosted d /\ reference d <> EmptyString) ->
  classify net d =
  if _looks_like_url (reference d) then
    bind (urlparse_netloc (reference d))
         (fun netloc =>
            let host := lower netloc in
            if contains "data.gov" host || contains "europa.eu" host then
              Return ("Open Government", "heuristic",
                      "Public sector domain '" ++ host ++ "'", "low")
            else if contains "kaggle.com" host then
              Return ("Varies (Kaggle)", "heuristic",
                      "Check the dataset page license on Kaggle", "review")
            else if contains "huggingface.co" host then
              Return ("Unknown", "heuristic",
                      "HF link but not a dataset card; inspect manually", "review")
            else
              Return ("Unknown", "heuristic", "External host '" ++ host ++ "'",
                      "review"))
  else if existsb (fun ext => endswith (lower (reference d)) ext)
                  [".csv"; ".jsonl"; ".parquet"; ".zip"] then
    Return ("Proprietary/Project-internal", "heuristic",
            "Local file path in repo", "review")
  else
    Return ("Unknown", "heuristic",
            "Pattern matched but no license inference", "review").
Proof.
  intros N. unfold _classify_reference, hosted in *.
  destruct (String.eqb (type d) "huggingface_datasets") eqn:E1.
  - apply String.eqb_eq in E1.
    destruct (reference d) as [|c rest]; [reflexivity|].
    exfalso; apply N; split; [left; exact E1|discriminate].
  - destruct (String.eqb (type d) "huggingface_load_dataset") eqn:E2; [|reflexivity].
    apply String.eqb_eq in E2.
    destruct (reference d) as [|c rest]; [reflexivity|].
    exfalso; apply N; split; [right; exact E2|discriminate].
Qed.

Lemma hosted_dec (d : entry) :
  {hosted d /\ reference d <> EmptyString} +
  {~ (hosted d /\ reference d <> EmptyString)}.
Proof.
  unfold hosted.
  destruct (string_dec (reference d) EmptyString) as [E|N];
    [right; tauto|].
  destruct (string_dec (type d) "huggingface_datasets") as [E1|N1]; [left; tauto|].
  destruct (string_dec (type d) "huggingface_load_dataset") as [E2|N2];
    [left; tauto|right; tauto].
Qed.

Lemma classify_hosted_returns (net : string -> response) (d : entry) :
  hosted d -> reference d <> EmptyString ->
  exists c, classify net d = Return c.
Proof.
  intros H N. rewrite (classify_hosted urlparse_netloc str_of net d H N).
  destruct (_fetch_hf_license _ _ _) as [[|l lic]|]; eauto.
Qed.

Lemma classify_raises (net : string -> response) (d : entry) (e : exn) :
  classify net d = Raise e <->
  ~ (hosted d /\ reference d <> EmptyString) /\
  _looks_like_url (reference d) = true /\
  urlparse_netloc (reference d) = Raise e.
Proof.
  destruct (hosted_dec d) as [[H N]|N].
  - destruct (classify_hosted_returns net d H N) as [c ->].
    split; [discriminate|tauto].
  - rewrite (classify_not_hosted net d N).
    destruct (_looks_like_url (reference d)).
    + destruct (urlparse_netloc (reference d)) as [netloc|e'] eqn:E; cbn [bind].
      * split; [|intros [_ [_ H]]; discriminate].
        destruct (_ || _); [discriminate|].
        destruct (contains "kaggle.com" _); [discriminate|].
        destruct (contains "huggingface.co" _); discriminate.
      * split; [intros H; injection H as ->; auto|].
        intros [_ [_ H]]; injection H as ->; reflexivity.
    + split; [|intros [_ [H _]]; discriminate].
      destruct (existsb _ _); discriminate.
Qed.

End ClassifierBranches.

(** X10.  The classification of a reference raises exactly when the
    reference does not take the hosted branch, its value starts with
    http:// or https://, and [urlparse] raises on it; the exception is
    the one of [urlparse].  In particular a hosted reference and a
    reference that is not a URL are always classified. *)
Theorem classification_raises_only_from_urlparse
        (urlparse_netloc : string -> result string) (str_of : json -> string)
        (net : string -> response) (d : entry) (e : exn) :
  _classify_reference urlparse_netloc str_of net d = Raise e <->
  ~ (hosted d /\ reference d <> EmptyString) /\
  _looks_like_url (reference d) = true /\
  urlparse_netloc (reference d) = Raise e.
Proof. apply classify_raises. Qed.

Lemma classification_raises_only_from_urlparse_witness :
  _classify_reference urlsplit_netloc Scenario.some_str Scenario.unreachable
    (mk_entry "pandas_read_csv" "http://[x/data.csv" "train.py" (Scenario.noon 0)
              None None None None)
  = Raise (ValueError "Invalid IPv6 URL").
Proof.
  apply (proj2 (classification_raises_only_from_urlparse
                  urlsplit_netloc Scenario.some_str Scenario.unreachable
                  (mk_entry "pandas_read_csv" "http://[x/data.csv" "train.py"
                            (Scenario.noon 0) None None None None)
                  (ValueError "Invalid IPv6 URL"))).
  split; [|split; reflexivity].
  intros [[H|H] _]; discriminate.
Defined.

(** ** How the enrichment loop ends *)

Section EnrichEnds.
Variable urlparse_netloc : string -> result string.
Variable str_of : json -> string.
Variable net : nat -> string -> response.

Local Abbreviation classify := (_classify_reference urlparse_netloc str_of).
Local Abbreviation enrich_from := (enrich_from urlparse_netloc str_of net).

Local Abbreviation classified_from := (classified_from urlparse_netloc str_of net).

Lemma enrich_from_total (ds : list entry) :
  forall i,
    (forall d, In d ds -> forall n, exists c, classify (net n) d = Return c) ->
    snd (enrich_from i ds) = None /\
    Forall2 classified_from ds (fst (enrich_from i ds)).
Proof.
  induction ds as [|d ds IH]; intros i H; simpl; [split; [reflexivity|constructor]|].
  destruct (H d (or_introl eq_refl) i) as [c Hc]. rewrite Hc.
  destruct (IH (S i) (fun d' Hd' => H d' (or_intror Hd'))) as [E F].
  destruct (enrich_from (S i) ds) as [rest' ex]. simpl in *.
  split; [exact E|]. constructor; [exists i, c; auto|exact F].
Qed.

Lemma enrich_from_stops (ds : list entry) :
  forall i e,
    snd (enrich_from i ds) = Some e ->
    exists pre pre' d post,
      ds = (pre ++ d :: post)%list /\
      classify (net (i + List.length pre)) d = Raise e /\
      Forall2 classified_from pre pre' /\
      fst (enrich_from i ds) = (pre' ++ d :: post)%list.
Proof.
  induction ds as [|d ds IH]; intros i e H; simpl in H; [discriminate|].
  simpl. destruct (classify (net i) d) as [c|ex] eqn:E.
  - specialize (IH (S i) e).
    destruct (enrich_from (S i) ds) as [rest' ex]. simpl in *.
    destruct (IH H) as [pre [pre' [d' [post [-> [Hc [F Hf]]]]]]].
    exists (d :: pre), (set_classification d c :: pre'), d', post.
    split; [reflexivity|]. split.
    + simpl. rewrite Nat.add_succ_r. exact Hc.
    + split; [constructor; [exists i, c; auto|exact F]|].
      simpl. rewrite Hf. reflexivity.
  - simpl in H. injection H as ->.
    exists [], [], d, ds. rewrite Nat.add_0_r.
    split; [reflexivity|]. split; [exact E|]. split; [constructor|reflexivity].
Qed.

End EnrichEnds.

Lemma risk_two_valued (lic : string) :
  _risk_from_licence lic = "low" \/ _risk_from_licence lic = "review".
Proof.
  unfold _risk_from_licence.
  destruct (existsb _ permissive); [left; reflexivity|].
  destruct (_ || _); [left; reflexivity|].
  destruct (mem _ _); right; reflexivity.
Qed.

(** X11.  When [urlparse] raises on none of the references, the
    enrichment ends normally: no reference is left out, each one carries
    the four keys of its own classification, its source is one of the two
    tags and its risk is low or review. *)
Theorem enrichment_completes
        (urlparse_netloc : string -> result string) (str_of : json -> string)
        (net : nat -> string -> response) (ds : list entry) :
  (forall d, In d ds -> forall e, urlparse_netloc (reference d) <> Raise e) ->
  let enriched := fst (enrich_with_licences urlparse_netloc str_of net ds) in
  snd (enrich_with_licences urlparse_netloc str_of net ds) = None /\
  Forall2 (classified_from urlparse_netloc str_of net) ds enriched /\
  Forall (fun b => exists l s n r,
              licence b = Some l /\ licence_source b = Some s /\
              notes b = Some n /\ risk_flag b = Some r /\
              (s = "huggingface_api" \/ s = "heuristic") /\
              (r = "low" \/ r = "review"))
         enriched.
Proof.
  intros H. cbv zeta. unfold enrich_with_licences.
  destruct (enrich_from_total urlparse_netloc str_of net ds 0) as [E F].
  { intros d Hd n.
    destruct (_classify_reference urlparse_netloc str_of (net n) d) as [c|e] eqn:C;
      [eauto|].
    apply classify_raises in C as [_ [_ C]]. exfalso; exact (H d Hd e C). }
  split; [exact E|]. split; [exact F|].
  clear E. induction F as [|a b l l' [i [[[[lic s] n] r] [Hc ->]]] F IH];
    constructor.
  - exists lic, s, n, r. cbn.
    repeat (split; [reflexivity|]).
    destruct (classify_returns _ _ _ _ _ _ _ _ Hc)
      as [[-> ->]|[[-> [_ ->]]|[[-> [_ ->]]|[[-> [_ ->]]|[-> [_ ->]]]]]]; auto.
    split; [auto|apply risk_two_valued].
  - apply IH. intros d Hd. apply H. right; exact Hd.
Qed.

Lemma enrichment_completes_witness :
  snd (enrich_with_licences urlsplit_netloc Scenario.some_str
         (fun _ => Scenario.cc_by_card)
         (scan_repository Scenario.noon [Scenario.a_file Scenario.loader_text]))
  = None.
Proof.
  apply (enrichment_completes urlsplit_netloc Scenario.some_str
           (fun _ => Scenario.cc_by_card)
           (scan_repository Scenario.noon [Scenario.a_file Scenario.loader_text])).
  intros d Hd e. vm_compute in Hd. destruct Hd as [<-|[]]. vm_compute. discriminate.
Defined.

(** X12.  When the enrichment ends by an exception, it is the exception
    of the first reference whose classification raises: the references
    before it carry their four new keys, that reference and all later
    ones are as the scan left them. *)
Theorem enrichment_stops_at_first_failure
        (urlparse_netloc : string -> result string) (str_of : json -> string)
        (net : nat -> string -> response) (ds : list entry) (e : exn) :
  snd (enrich_with_licences urlparse_netloc str_of net ds) = Some e ->
  exists pre pre' d post,
    ds = (pre ++ d :: post)%list /\
    _classify_reference urlparse_netloc str_of (net (List.length pre)) d = Raise e /\
    Forall2 (classified_from urlparse_netloc str_of net) pre pre' /\
    fst (enrich_with_licences urlparse_netloc str_of net ds)
    = (pre' ++ d :: post)%list.
Proof.
  intros H. apply (enrich_from_stops urlparse_netloc str_of net ds 0 e H).
Qed.

Lemma enrichment_stops_at_first_failure_witness :
  let ds := [mk_entry "pandas_read_csv" "local/data.csv" "train.py" "noon"
                      None None None None;
             mk_entry "pandas_read_csv" "http://[x/data.csv" "train.py" "noon"
                      None None None None;
             mk_entry "dataset_urls" "more.csv" "train.py" "noon"
                      None None None None] in
  exists pre pre' d post,
    ds = (pre ++ d :: post)%list /\
    _classify_reference urlsplit_netloc Scenario.some_str
                        Scenario.unreachable d
    = Raise (ValueError "Invalid IPv6 URL") /\
    Forall2 (classified_from urlsplit_netloc Scenario.some_str
                             (fun _ => Scenario.unreachable)) pre pre' /\
    fst (enrich_with_licences urlsplit_netloc Scenario.some_str
           (fun _ => Scenario.unreachable) ds)
    = (pre' ++ d :: post)%list.
Proof.
  cbv zeta.
  apply (enrichment_stops_at_first_failure urlsplit_netloc Scenario.some_str
           (fun _ => Scenario.unreachable)).
  vm_compute. reflexivity.
Defined.

(** ** Where low risk comes from *)

(** X13.  A classification has risk low in exactly two situations: a
    hosted reference whose lookup gave a non-empty licence text holding a
    permissive marker, or a URL reference outside the hosted branch whose
    host contains data.gov or europa.eu (which wins over the Kaggle and
    Hugging Face host tests).  Every other reference is review. *)
Theorem low_risk_sources
        (urlparse_netloc : string -> result string) (str_of : json -> string)
        (net : string -> response) (d : entry) :
  (exists lic source notes,
      _classify_reference urlparse_netloc str_of net d
      = Return (lic, source, notes, "low")) <->
  (hosted d /\ reference d <> EmptyString /\
   exists lic, _fetch_hf_license str_of net (normalise_id (reference d)) = Some lic /\
               lic <> EmptyString /\ _risk_from_licence lic = "low") \/
  (~ (hosted d /\ reference d <> EmptyString) /\
   _looks_like_url (reference d) = true /\
   exists netloc, urlparse_netloc (reference d) = Return netloc /\
                  (contains "data.gov" (lower netloc) = true \/
                   contains "europa.eu" (lower netloc) = true)).
Proof.
  destruct (hosted_dec d) as [[H N]|N].
  - rewrite (classify_hosted urlparse_netloc str_of net d H N).
    destruct (_fetch_hf_license str_of net (normalise_id (reference d)))
      as [[|l lic]|]; split.
    + intros [? [? [? E]]]; discriminate.
    + intros [[_ [_ [lic [E [Ne _]]]]]|[X _]]; [|tauto].
      injection E as <-. congruence.
    + intros [lic' [s [n E]]]. injection E as <- _ _ R.
      left. split; [exact H|]. split; [exact N|].
      exists (String l lic). split; [reflexivity|]. split; [discriminate|exact R].
    + intros [[_ [_ [lic' [E [_ R]]]]]|[X _]]; [|tauto].
      injection E as <-. rewrite R. eauto.
    + intros [? [? [? E]]]; discriminate.
    + intros [[_ [_ [lic [E _]]]]|[X _]]; [discriminate|tauto].
  - rewrite (classify_not_hosted urlparse_netloc str_of net d N).
    destruct (_looks_like_url (reference d)).
    + destruct (urlparse_netloc (reference d)) as [netloc|e]; cbn [bind].
      * destruct (contains "data.gov" (lower netloc)) eqn:E1;
          [|destruct (contains "europa.eu" (lower netloc)) eqn:E2]; cbn [orb].
        -- split; [|eauto]. intros _. right. split; [exact N|].
           split; [reflexivity|]. exists netloc. auto.
        -- split; [|eauto]. intros _. right. split; [exact N|].
           split; [reflexivity|]. exists netloc. auto.
        -- split.
           ++ destruct (contains "kaggle.com" _);
                [|destruct (contains "huggingface.co" _)];
                intros [? [? [? E]]]; discriminate.
           ++ intros [[X [Y _]]|[_ [_ [nl' [E [C|C]]]]]]; [tauto| |];
                injection E as <-; congruence.
      * split; [intros [? [? [? E]]]; discriminate|].
        intros [[X [Y _]]|[_ [_ [nl' [E _]]]]]; [tauto|discriminate].
    + split.
      * destruct (existsb _ _); intros [? [? [? E]]]; discriminate.
      * intros [[X [Y _]]|[_ [E _]]]; [tauto|discriminate].
Qed.

Lemma low_risk_sources_witness :
  exists lic source notes,
    _classify_reference urlsplit_netloc Scenario.some_str Scenario.unreachable
      (mk_entry "pandas_read_csv" "https://www.kaggle.com.data.gov/x.csv"
                "train.py" "noon" None None None None)
    = Return (lic, source, notes, "low").
Proof.
  apply (proj2 (low_risk_sources urlsplit_netloc Scenario.some_str
                  Scenario.unreachable
                  (mk_entry "pandas_read_csv" "https://www.kaggle.com.data.gov/x.csv"
                            "train.py" "noon" None None None None))).
  right. split; [intros [[H|H] _]; discriminate|]. split; [reflexivity|].
  exists "www.kaggle.com.data.gov". split; [reflexivity|left; reflexivity].
Defined.

(** ** The licence read from a card *)

(** X14.  When the card has no usable [license] value, the licence is
    read from the first entry of the [licenses] list and from no other:
    a non-empty text is the licence, a dictionary gives its non-empty
    [name], and a dictionary without [name] gives no licence, whatever
    the later entries are. *)
Theorem licence_from_licenses_list
        (str_of : json -> string) (net : string -> response) (hf_id : string)
        (pairs card : list (string * json)) (first : json) (others : list json) :
  net (api_url hf_id) = Body (Some (JObj pairs)) ->
  lookup "cardData" pairs = Some (JObj card) ->
  absent_or_empty (lookup "license" card) ->
  lookup "licenses" card = Some (JArr (first :: others)) ->
  (forall name, first = JStr name -> name <> EmptyString ->
                _fetch_hf_license str_of net hf_id = Some name) /\
  (forall fields name,
      first = JObj fields -> lookup "name" fields = Some (JStr name) ->
      name <> EmptyString ->
      _fetch_hf_license str_of net hf_id = Some name) /\
  (forall fields,
      first = JObj fields -> lookup "name" fields = None ->
      _fetch_hf_license str_of net hf_id = None).
Proof.
  intros Hn Hc Hl Hls.
  destruct (absent_or_empty_falsy card "license" Hl) as [v [Hv F]].
  assert (forall pick,
             (match first with
              | JObj fields =>
                  match lookup "name" fields with
                  | Some name => Return name
                  | None => Return v
                  end
              | JStr _ => Return first
              | _ => Return v
              end) = Return pick ->
             _fetch_hf_license str_of net hf_id
             = if truthy pick then Some (py_str str_of pick) else None) as Pick.
  { intros pick Hp. unfold _fetch_hf_license, request. rewrite Hn.
    unfold licence_of_card. unfold get at 1. rewrite Hc. cbn [bind].
    destruct card as [|pr card]; [discriminate|]. cbn [truthy].
    rewrite Hv. cbn [bind]. rewrite F.
    unfold get. rewrite Hls. cbn [bind]. rewrite Hp. cbn [bind].
    destruct (truthy pick); reflexivity. }
  split; [|split].
  - intros name -> Ne. rewrite (Pick (JStr name) eq_refl).
    destruct name; [congruence|reflexivity].
  - intros fields name -> Hname Ne.
    rewrite (Pick (JStr name)) by (rewrite Hname; reflexivity).
    destruct name; [congruence|reflexivity].
  - intros fields -> Hname.
    rewrite (Pick v) by (rewrite Hname; reflexivity).
    rewrite F. reflexivity.
Qed.

Lemma licence_from_licenses_list_witness :
  _fetch_hf_license Scenario.some_str
    (fun _ => Body (Some (JObj [("cardData",
                                 JObj [("licenses",
                                        JArr [JObj [("name", JStr "mit")];
                                              JStr "other"])])])))
    "org/name"
  = Some "mit".
Proof.
  apply (proj1 (proj2 (licence_from_licenses_list Scenario.some_str
           (fun _ => Body (Some (JObj [("cardData",
                                        JObj [("licenses",
                                               JArr [JObj [("name", JStr "mit")];
                                                     JStr "other"])])])))
           "org/name"
           [("cardData", JObj [("licenses", JArr [JObj [("name", JStr "mit")];
                                                  JStr "other"])])]
           [("licenses", JArr [JObj [("name", JStr "mit")]; JStr "other"])]
           (JObj [("name", JStr "mit")]) [JStr "other"]
           eq_refl eq_refl (or_introl eq_refl) eq_refl))
           [("name", JStr "mit")] "mit" eq_refl eq_refl).
  discriminate.
Defined.

(** ** The identifier sent to the host *)

Lemma prefix_append (a b : string) : String.prefix a (a ++ b) = true.
Proof.
  induction a as [|c a IH]; [destruct b; reflexivity|].
  simpl. destruct (Ascii.ascii_dec c c); [exact IH|congruence].
Qed.

Lemma replace_from_skip (old new : string) (a : string) :
  forall s, replace_from old new (String.length a) (a ++ s)
            = replace_from old new 0 s.
Proof.
  induction a as [|c a IH]; intros s; [reflexivity|]. simpl. apply IH.
Qed.

Lemma replace_removes_prefix (old : string) (s : string) :
  old <> EmptyString ->
  replace (old ++ s) old EmptyString = replace s old EmptyString.
Proof.
  intros N. destruct old as [|c old]; [congruence|].
  unfold replace. cbn [append replace_from].
  pose proof (prefix_append (String c old) s) as P. cbn [append] in P. rewrite P.
  replace (String.length (String c old) - 1) with (String.length old)
    by (cbn [String.length]; lia).
  cbn [append]. apply replace_from_skip.
Qed.

(** X15.  A hosted reference given as the full dataset URL and one given
    as the bare identifier are looked up under the same identifier: the
    URL prefix is removed before the request is made. *)
Theorem normalise_id_removes_url_prefix (hf_id : string) :
  normalise_id ("https://huggingface.co/datasets/" ++ hf_id) = normalise_id hf_id /\
  api_url (normalise_id ("https://huggingface.co/datasets/" ++ hf_id))
  = api_url (normalise_id hf_id).
Proof.
  assert (normalise_id ("https://huggingface.co/datasets/" ++ hf_id)
          = normalise_id hf_id) as E.
  { unfold normalise_id. rewrite replace_removes_prefix by discriminate.
    reflexivity. }
  split; [exact E|rewrite E; reflexivity].
Qed.

(** * Properties of the report *)

Lemma bump_total (t : string) (tc : list (string * nat)) :
  list_sum (map snd (bump t tc)) = S (list_sum (map snd tc)).
Proof.
  induction tc as [|[k n] tc IH]; simpl; [reflexivity|].
  destruct (String.eqb k t); simpl; [lia|rewrite IH; lia].
Qed.

Lemma bump_keys (t : string) (tc : list (string * nat)) (k : string) :
  In k (map fst (bump t tc)) <-> k = t \/ In k (map fst tc).
Proof.
  induction tc as [|[k0 n] tc IH]; simpl; [intuition auto|].
  destruct (String.eqb k0 t) eqn:E; simpl.
  - apply String.eqb_eq in E. subst. intuition auto.
  - rewrite IH. intuition auto.
Qed.

Lemma bump_nodup (t : string) (tc : list (string * nat)) :
  NoDup (map fst tc) -> NoDup (map fst (bump t tc)).
Proof.
  induction tc as [|[k n] tc IH]; simpl; intros H.
  - constructor; [intros []|constructor].
  - inversion H as [|? ? Hn Hd]; subst.
    destruct (String.eqb k t) eqn:E; simpl; [constructor; assumption|].
    constructor; [|apply IH; exact Hd].
    rewrite bump_keys. intros [->|Hk]; [|exact (Hn Hk)].
    rewrite String.eqb_refl in E. discriminate.
Qed.

Lemma get_count_bump (t : string) (tc : list (string * nat)) (k : string) :
  get_count (bump t tc) k
  = if String.eqb t k then S (get_count tc k) else get_count tc k.
Proof.
  induction tc as [|[k0 n] tc IH]; simpl.
  - destruct (String.eqb t k); reflexivity.
  - destruct (String.eqb k0 t) eqn:E; simpl.
    + apply String.eqb_eq in E; subst k0.
      destruct (String.eqb t k); [lia|reflexivity].
    + destruct (String.eqb k0 k) eqn:E2; [|exact IH].
      apply String.eqb_eq in E2; subst k0.
      destruct (String.eqb t k) eqn:E3; [|reflexivity].
      apply String.eqb_eq in E3; subst t.
      rewrite String.eqb_refl in E. discriminate.
Qed.

Lemma type_summary_from (ds : list entry) :
  forall tc,
    let tc' := fold_left (fun type_counts d => bump (type d) type_counts) ds tc in
    (forall t, get_count tc' t
               = get_count tc t + count_occ string_dec (map type ds) t) /\
    list_sum (map snd tc') = list_sum (map snd tc) + List.length ds /\
    (NoDup (map fst tc) -> NoDup (map fst tc')) /\
    (forall t, In t (map fst tc') <-> In t (map fst tc) \/ In t (map type ds)).
Proof.
  induction ds as [|d ds IH]; intros tc; cbn [fold_left].
  - cbv zeta. split; [intros t; simpl; lia|]. split; [simpl; lia|].
    split; [auto|]. intros t; simpl; tauto.
  - destruct (IH (bump (type d) tc)) as [H1 [H2 [H3 H4]]]. cbv zeta.
    split; [|split; [|split]].
    + intros t. rewrite H1, get_count_bump. cbn [map count_occ].
      destruct (string_dec (type d) t) as [E|N].
      * subst t. rewrite String.eqb_refl. lia.
      * destruct (String.eqb (type d) t) eqn:E; [|lia].
        apply String.eqb_eq in E. contradiction.
    + rewrite H2, bump_total. simpl. lia.
    + intros N. apply H3, bump_nodup, N.
    + intros t. rewrite H4, bump_keys. simpl. intuition auto.
Qed.

(** X16.  The type summary counts every reference once under its kind:
    the count of a kind is the number of references of that kind (zero
    for a kind that is absent from the summary), the counts add up to the
    number of references, no kind is listed twice, and the kinds listed
    are exactly those that occur. *)
Theorem type_summary_counts (datasets_found : list entry) :
  let type_counts := _get_type_summary datasets_found in
  (forall t, get_count type_counts t
             = count_occ string_dec (map type datasets_found) t) /\
  list_sum (map snd type_counts) = List.length datasets_found /\
  NoDup (map fst type_counts) /\
  (forall t, In t (map fst type_counts) <-> In t (map type datasets_found)).
Proof.
  destruct (type_summary_from datasets_found []) as [H1 [H2 [H3 H4]]].
  cbv zeta. unfold _get_type_summary.
  split; [intros t; rewrite H1; reflexivity|]. split; [exact H2|].
  split; [apply H3; constructor|].
  intros t. rewrite H4. simpl. tauto.
Qed.

Lemma scan_nothing (clock : nat -> string) (tree : list path) :
  (forall p, In p tree -> eligible p = false \/ content p = None) ->
  forall self, fold_left (scan_path clock) tree self = self.
Proof.
  induction tree as [|p tree IH]; intros H self; [reflexivity|].
  cbn [fold_left]. rewrite scan_path_skipped by (apply H; left; reflexivity).
  apply IH. intros q Hq. apply H. right; exact Hq.
Qed.

(** The ways [generate_passport] ends. *)
Lemma generate_passport_works (out : console) (fs : filesystem)
      (now : string) (ds : list entry) :
  say_generating out = None -> filesystem_works fs ->
  generate_passport out fs now ds
  = (mk_outputs
       (Complete (mk_summary now (List.length ds) ds (_get_type_summary ds)))
       (Complete (_generate_markdown_summary
                    (mk_summary now (List.length ds) ds (_get_type_summary ds)))),
     say_generated out).
Proof.
  intros G [M1 [M2 [M3 [M4 M5]]]]. unfold generate_passport.
  rewrite G, M1, M2, M3, M4, M5. reflexivity.
Qed.

Lemma generate_passport_done (out : console) (fs : filesystem)
      (now : string) (ds : list entry) :
  snd (generate_passport out fs now ds) = None ->
  say_generating out = None /\ filesystem_works fs /\ say_generated out = None.
Proof.
  unfold generate_passport, filesystem_works.
  destruct (say_generating out); [discriminate|].
  destruct (mkdir fs); [discriminate|].
  destruct (open_json fs); [discriminate|].
  destruct (dump_json fs); [discriminate|].
  destruct (open_md fs); [discriminate|].
  destruct (write_md fs); [discriminate|].
  cbn [snd]. auto 10.
Qed.


Section MainFacts.
Variable clock : nat -> string.
Variable urlparse_netloc : string -> result string.
Variable str_of : json -> string.
Variable net : nat -> string -> response.
Variable out : console.
Variable fs : filesystem.

Local Abbreviation main := (main clock urlparse_netloc str_of net out fs).
Local Abbreviation enrich := (enrich_with_licences urlparse_netloc str_of net).

(** The run once the first four messages are printed. *)
Lemma main_cases (tree : list path) :
  say_starting out = None -> say_scanning out = None ->
  say_found out = None -> say_classifying out = None ->
  let passport :=
    generate_passport out fs
      (clock (now_calls (fold_left (scan_path clock) tree (mk_scanner [] 0))))
      (fst (enrich (scan_repository clock tree))) in
  match snd (enrich (scan_repository clock tree)) with
  | Some e => main tree = (nothing_written, Some (Classification e))
  | None =>
      main tree
      = (fst passport,
         match snd passport with
         | Some e => Some (Output e)
         | None => option_map Output (say_completed out)
         end)
  end.
Proof.
  intros P1 P2 P3 P4. cbv zeta. unfold Report.main, scan_repository.
  rewrite P1, P2, P3, P4.
  destruct (enrich_with_licences _ _ _ _) as [enriched [e|]]; [reflexivity|].
  cbn [fst snd]. destruct (generate_passport _ _ _ _) as [written [e|]]; reflexivity.
Qed.

(** A run that ends by an exception of the enrichment, or without an
    exception, has printed its first four messages. *)
Lemma main_printed (tree : list path) :
  (snd (main tree) = None \/ exists e, snd (main tree) = Some (Classification e)) ->
  say_starting out = None /\ say_scanning out = None /\
  say_found out = None /\ say_classifying out = None.
Proof.
  unfold Report.main.
  destruct (say_starting out); [intros [H|[e H]]; discriminate|].
  destruct (say_scanning out); [intros [H|[e H]]; discriminate|].
  destruct (say_found out); [intros [H|[e H]]; discriminate|].
  destruct (say_classifying out); [intros [H|[e H]]; discriminate|].
  auto.
Qed.

End MainFacts.

(** X17.  When the run ends without an exception, both files are written
    completely, and the report holds every reference the scan found, in
    the same order and with the same kind, value, file and timestamp;
    the total it states is the number of references and also the sum of
    the counts per kind; and the markdown text is built from the same
    summary that is dumped to the JSON file. *)
Theorem report_is_consistent
        (clock : nat -> string) (urlparse_netloc : string -> result string)
        (str_of : json -> string) (net : nat -> string -> response)
        (out : console) (fs : filesystem) (tree : list path) :
  snd (main clock urlparse_netloc str_of net out fs tree) = None ->
  exists summary_data markdown,
    fst (main clock urlparse_netloc str_of net out fs tree)
    = mk_outputs (Complete summary_data) (Complete markdown) /\
    map (fun d => (type d, reference d, file d, found_at d)) (datasets summary_data)
    = map (fun d => (type d, reference d, file d, found_at d))
          (scan_repository clock tree) /\
    total_datasets summary_data = List.length (datasets summary_data) /\
    total_datasets summary_data = List.length (scan_repository clock tree) /\
    list_sum (map snd (types summary_data)) = total_datasets summary_data /\
    markdown = _generate_markdown_summary summary_data.
Proof.
  intros H.
  destruct (main_printed clock urlparse_netloc str_of net out fs tree
              (or_introl H)) as [P1 [P2 [P3 P4]]].
  pose proof (main_cases clock urlparse_netloc str_of net out fs tree
                P1 P2 P3 P4) as M.
  cbv zeta in M.
  destruct (snd (enrich_with_licences urlparse_netloc str_of net
                   (scan_repository clock tree))) as [e|];
    [rewrite M in H; discriminate|].
  rewrite M in H |- *. cbn [fst snd] in H |- *.
  destruct (snd (generate_passport out fs _ _)) as [e|] eqn:G; [discriminate|].
  destruct (generate_passport_done _ _ _ _ G) as [Pg [W _]].
  rewrite (generate_passport_works out fs _ _ Pg W). cbn [fst].
  eexists _, _. split; [reflexivity|].
  cbn [datasets total_datasets types].
  pose proof (enrich_from_frame urlparse_netloc str_of net
                (scan_repository clock tree) 0) as F.
  fold (enrich_with_licences urlparse_netloc str_of net
          (scan_repository clock tree)) in F.
  split; [exact F|]. split; [reflexivity|]. split.
  - apply (f_equal (@List.length _)) in F. rewrite !length_map in F. exact F.
  - split; [|reflexivity].
    apply (proj1 (proj2 (type_summary_from _ []))).
Qed.

Lemma report_is_consistent_witness :
  exists summary_data markdown,
    fst (main Scenario.noon urlsplit_netloc Scenario.some_str
              (fun _ => Scenario.cc_by_card) talking writable
              [Scenario.a_file Scenario.loader_text;
               Scenario.second_file Scenario.csv_text])
    = mk_outputs (Complete summary_data) (Complete markdown) /\
    total_datasets summary_data = 3 /\
    list_sum (map snd (types summary_data)) = 3.
Proof.
  destruct (report_is_consistent Scenario.noon urlsplit_netloc Scenario.some_str
              (fun _ => Scenario.cc_by_card) talking writable
              [Scenario.a_file Scenario.loader_text;
               Scenario.second_file Scenario.csv_text])
    as [summary_data [markdown [E [_ [_ [T [S _]]]]]]].
  - vm_compute. reflexivity.
  - exists summary_data, markdown. split; [exact E|].
    split; [rewrite T; vm_compute; reflexivity|].
    rewrite S, T. vm_compute. reflexivity.
Defined.

(** X19.  For a tree without an eligible readable file: when every
    message is printed and the five file steps succeed, the run writes
    the empty report, with total 0, no references, no kinds, and the
    markdown text with the section that says no datasets were found;
    when the messages up to there are printed and creating the directory
    raises, the run ends with that exception and writes nothing. *)
Theorem empty_tree_report
        (clock : nat -> string) (urlparse_netloc : string -> result string)
        (str_of : json -> string) (net : nat -> string -> response)
        (out : console) (fs : filesystem) (tree : list path) :
  (forall p, In p tree -> eligible p = false \/ content p = None) ->
  (console_works out -> filesystem_works fs ->
   main clock urlparse_netloc str_of net out fs tree
   = (mk_outputs
        (Complete (mk_summary (clock 0) 0 [] []))
        (Complete
           ("# AI Passport - Dataset Summary" ++ nl
            ++ "**Scanned at:** " ++ clock 0 ++ "  " ++ nl
            ++ "**Total datasets found:** 0" ++ nl ++ nl
            ++ "## Dataset Types" ++ nl ++ nl
            ++ nl ++ "## No datasets found" ++ nl ++ nl
            ++ "No dataset references were detected in this repository." ++ nl
            ++ nl ++ "---" ++ nl ++ "*Generated by AI Passport Scanner*" ++ nl)),
      None)) /\
  (forall e,
      say_starting out = None -> say_scanning out = None ->
      say_found out = None -> say_classifying out = None ->
      say_generating out = None -> mkdir fs = Some e ->
      main clock urlparse_netloc str_of net out fs tree
      = (nothing_written, Some (Output e))).
Proof.
  intros H. unfold Report.main. rewrite (scan_nothing clock tree H).
  cbn [datasets_found now_calls enrich_with_licences enrich_from].
  split.
  - intros [P1 [P2 [P3 [P4 [P5 [P6 P7]]]]]] W.
    rewrite P1, P2, P3, P4, (generate_passport_works out fs _ _ P5 W), P6, P7.
    reflexivity.
  - intros e P1 P2 P3 P4 P5 M. rewrite P1, P2, P3, P4.
    unfold generate_passport. rewrite P5, M. reflexivity.
Qed.

Lemma empty_tree_report_witness :
  (exists markdown,
      main Scenario.noon urlsplit_netloc Scenario.some_str
           (fun _ => Scenario.unreachable) talking writable
           [mk_path ["node_modules"; "pkg"; "index.json"] false
                    (Some Scenario.csv_text)]
      = (mk_outputs (Complete (mk_summary (Scenario.noon 0) 0 [] []))
                    (Complete markdown), None)) /\
  main Scenario.noon urlsplit_netloc Scenario.some_str
       (fun _ => Scenario.unreachable) talking passport_is_a_file
       [mk_path [".passport"] false None]
  = (nothing_written, Some (Output (OSError "FileExistsError"))).
Proof.
  split.
  - eexists.
    apply (proj1 (empty_tree_report Scenario.noon urlsplit_netloc Scenario.some_str
             (fun _ => Scenario.unreachable) talking writable
             [mk_path ["node_modules"; "pkg"; "index.json"] false
                      (Some Scenario.csv_text)]
             ltac:(intros p [<-|[]]; left; reflexivity)));
      unfold console_works, filesystem_works; simpl; tauto.
  - apply (proj2 (empty_tree_report Scenario.noon urlsplit_netloc Scenario.some_str
             (fun _ => Scenario.unreachable) talking passport_is_a_file
             [mk_path [".passport"] false None]
             ltac:(intros p [<-|[]]; left; reflexivity)));
      reflexivity.
Defined.

(** * The deduplication key *)

(** X20.  For the four kinds of the scanner, the key text built from kind
    and lower-cased value is unambiguous: two entries have the same key
    exactly when they have the same kind and the same lower-cased value,
    so no reference is dropped as the duplicate of a different one. *)
Theorem key_separates_kind_and_value (d1 d2 : entry) :
  In (type d1) (map fst patterns) -> In (type d2) (map fst patterns) ->
  (key d1 = key d2 <-> type d1 = type d2 /\ lower (reference d1) = lower (reference d2)).
Proof.
  intros H1 H2. unfold key. split.
  - apply key_inj; apply patterns_no_colon; assumption.
  - intros [-> ->]. reflexivity.
Qed.

Lemma key_separates_kind_and_value_witness :
  key (mk_entry "dataset_urls" "Data.CSV" "a.py" "noon" None None None None)
  = key (mk_entry "dataset_urls" "data.csv" "b.py" "noon" None None None None).
Proof.
  apply (proj2 (key_separates_kind_and_value
                  (mk_entry "dataset_urls" "Data.CSV" "a.py" "noon"
                            None None None None)
                  (mk_entry "dataset_urls" "data.csv" "b.py" "noon"
                            None None None None)
                  ltac:(simpl; tauto) ltac:(simpl; tauto))).
  split; reflexivity.
Defined.

(** * When the run fails *)



(** On a console that cannot encode the messages the run ends at its
    first message, before any file is read or written. *)
Example run_on_ascii_console :
  main Scenario.noon urlsplit_netloc Scenario.some_str
       (fun _ => Scenario.unreachable) ascii_console writable
       [Scenario.a_file Scenario.csv_text]
  = (nothing_written, Some (Output UnicodeEncodeError)).
Proof. reflexivity. Qed.
